(** * libpy: [py::scoped_ref<T>] (include/libpy/scoped_ref.h)

    A shallow embedding of the RAII handle [scoped_ref<T>] and of the two
    reference-counting macros it calls, followed by the properties of its
    constructors, assignments, destructor, [escape] and observers.

    A handle is a C++ object with one field, [m_ref : T*].  Several
    handles live at the same time and an assignment may name the same
    handle on both sides, so handles are kept in a store indexed by their
    identity; the foreign runtime's objects live in a heap indexed by
    address.  Every call of a reference-counting macro is recorded in a
    trace, so that "exactly one release" is a statement about the trace. *)

From stdpp Require Import gmap list fin_maps.

(** ** Data *)

(** Addresses of runtime objects; a [T*] is an address or [nullptr]. *)
Abbreviation addr := positive (only parsing).
Abbreviation ptr := (option positive) (only parsing).
Abbreviation nullptr := (@None positive) (only parsing).

(** Identity of a [scoped_ref] object (the storage it occupies). *)
Abbreviation hid := nat (only parsing).

(** The calls made to the foreign runtime. *)
Inductive event : Type :=
  | Retain (a : addr)
  | Release (a : addr).

(** Undefined behaviour of the C++ program, made explicit. *)
Inductive fault : Type :=
  | UseAfterFree (a : addr)
  | NullDeref
  | NoHandle (h : hid)
  | HandleInUse (h : hid).

Section scoped_ref.
(** The pointee type: the part of the object that is not its count. *)
Variable T : Type.

(** A runtime object: its reference count and its contents.  The count
    is a natural number: the overflow of the runtime's counter is out of
    reach of a program that holds one pointer per credit. *)
Record object : Type := Object { ob_refcnt : nat; ob_body : T }.

Record world : Type := World {
  heap : gmap positive object;     (* live objects *)
  handles : gmap nat (option positive);   (* m_ref of every live handle *)
  trace : list event               (* retains and releases, oldest first *)
}.

Inductive outcome (A : Type) : Type :=
  | Ok (a : A) (w : world)
  | Fault (f : fault).
Global Arguments Ok {A} a w.
Global Arguments Fault {A} f.

(** Computations over the world that may hit undefined behaviour. *)
Definition M (A : Type) : Type := world → outcome A.

Definition ret {A} (a : A) : M A := λ w, Ok a w.

Definition bind {A B} (m : M A) (k : A → M B) : M B := λ w,
  match m w with
  | Ok a w' => k a w'
  | Fault f => Fault f
  end.

Definition raise {A} (f : fault) : M A := λ _, Fault f.

Global Instance M_ret : MRet M := @ret.
Global Instance M_bind : MBind M := λ A B k m, bind m k.

(** *** The reference-counted object model *)

Definition refcount (w : world) (a : addr) : nat :=
  match heap w !! a with
  | Some o => ob_refcnt o
  | None => 0
  end.

Definition set_heap (hp : gmap positive object) (w : world) : world :=
  World hp (handles w) (trace w).

Definition set_handles (hs : gmap nat (option positive)) (w : world) : world :=
  World (heap w) hs (trace w).

Definition log (e : event) : M unit := λ w,
  Ok tt (World (heap w) (handles w) (trace w ++ [e])).

(** Modelled from the spec: [Py_XINCREF] of Python.h, the runtime's
    retain.  A no-op on [nullptr]; otherwise it increments the count
    stored in the object, which is undefined on freed memory. *)
Definition Py_XINCREF (p : ptr) : M unit :=
  match p with
  | None => ret tt
  | Some a => λ w,
      match heap w !! a with
      | None => Fault (UseAfterFree a)
      | Some o =>
          log (Retain a)
            (set_heap (<[a := Object (S (ob_refcnt o)) (ob_body o)]> (heap w)) w)
      end
  end.

(** Modelled from the spec: [Py_XDECREF] of Python.h, the runtime's
    release.  A no-op on [nullptr]; otherwise it decrements the count
    and frees the object when the count reaches zero. *)
Definition Py_XDECREF (p : ptr) : M unit :=
  match p with
  | None => ret tt
  | Some a => λ w,
      match heap w !! a with
      | None => Fault (UseAfterFree a)
      | Some o =>
          log (Release a)
            (set_heap (if decide (ob_refcnt o ≤ 1)
                       then delete a (heap w)
                       else <[a := Object (ob_refcnt o - 1) (ob_body o)]> (heap w)) w)
      end
  end.

(** *** Access to the field [m_ref] *)

(** Read [h.m_ref]. *)
Definition load (h : hid) : M ptr := λ w,
  match handles w !! h with
  | Some p => Ok p w
  | None => Fault (NoHandle h)
  end.

(** [h.m_ref = p] on a live handle. *)
Definition store (h : hid) (p : ptr) : M unit := λ w,
  match handles w !! h with
  | Some _ => Ok tt (set_handles (<[h := p]> (handles w)) w)
  | None => Fault (NoHandle h)
  end.

(** The member initialiser [m_ref(p)] of a handle coming to life. *)
Definition init (h : hid) (p : ptr) : M unit := λ w,
  match handles w !! h with
  | None => Ok tt (set_handles (<[h := p]> (handles w)) w)
  | Some _ => Fault (HandleInUse h)
  end.

(** The end of the handle's storage, after the destructor's body. *)
Definition dispose (h : hid) : M unit := λ w,
  match handles w !! h with
  | Some _ => Ok tt (set_handles (delete h (handles w)) w)
  | None => Fault (NoHandle h)
  end.

(** *** Constructors *)

(** [constexpr scoped_ref() : m_ref(nullptr) {}] *)
Definition ctor_default (self : hid) : M unit := init self nullptr.

(** [constexpr scoped_ref(std::nullptr_t) : m_ref(nullptr) {}] *)
Definition ctor_nullptr (self : hid) : M unit := init self nullptr.

(** [explicit scoped_ref(T* ref) : m_ref(ref) {}] *)
Definition ctor_adopt (self : hid) (ref : ptr) : M unit := init self ref.

(** [scoped_ref(const scoped_ref& cpfrom) : m_ref(cpfrom.m_ref)
      { Py_XINCREF(m_ref); }] *)
Definition ctor_copy (self cpfrom : hid) : M unit :=
  p ← load cpfrom;
  init self p ;;
  q ← load self;
  Py_XINCREF q.

(** [scoped_ref(scoped_ref&& mvfrom) noexcept : m_ref(mvfrom.m_ref)
      { mvfrom.m_ref = nullptr; }] *)
Definition ctor_move (self mvfrom : hid) : M unit :=
  p ← load mvfrom;
  init self p ;;
  store mvfrom nullptr.

(** *** Assignments *)

(** [scoped_ref& operator=(const scoped_ref& cpfrom)]:
    [Py_XDECREF(m_ref); m_ref = cpfrom.m_ref; Py_XINCREF(m_ref);
     return *this;] *)
Definition assign_copy (self cpfrom : hid) : M hid :=
  old ← load self;
  Py_XDECREF old ;;
  p ← load cpfrom;
  store self p ;;
  q ← load self;
  Py_XINCREF q ;;
  ret self.

(** [scoped_ref& operator=(scoped_ref&& mvfrom) noexcept]:
    [Py_XDECREF(m_ref); m_ref = mvfrom.m_ref; mvfrom.m_ref = nullptr;
     return *this;] *)
Definition assign_move (self mvfrom : hid) : M hid :=
  old ← load self;
  Py_XDECREF old ;;
  p ← load mvfrom;
  store self p ;;
  store mvfrom nullptr ;;
  ret self.

(** *** Destructor and escape *)

(** [~scoped_ref() { Py_XDECREF(m_ref); }] *)
Definition dtor (self : hid) : M unit :=
  p ← load self;
  Py_XDECREF p ;;
  dispose self.

(** [T* escape() && { T* ret = m_ref; m_ref = nullptr; return ret; }] *)
Definition escape (self : hid) : M ptr :=
  r ← load self;
  store self nullptr ;;
  ret r.

(** *** Observers *)

(** [T* get() { return m_ref; }] *)
Definition get (self : hid) : M ptr := load self.

(** [const T* get() const { return m_ref; }] *)
Definition get_const (self : hid) : M ptr := load self.

(** [explicit operator T*() { return m_ref; }] *)
Definition to_ptr (self : hid) : M ptr := load self.

(** [explicit operator const T*() const { return m_ref; }] *)
Definition to_const_ptr (self : hid) : M ptr := load self.

(** [explicit operator PyObject*()
      { return reinterpret_cast<PyObject*>(m_ref); }]
    (present only when [T] is not [PyObject]; the cast keeps the
    address). *)
Definition to_PyObject (self : hid) : M ptr := load self.

(** [explicit operator const PyObject*() const] *)
Definition to_const_PyObject (self : hid) : M ptr := load self.

(** The lvalue [*p]: the address of a live object. *)
Definition indirect (p : ptr) : M addr :=
  match p with
  | None => raise NullDeref
  | Some a => λ w,
      match heap w !! a with
      | Some _ => Ok a w
      | None => Fault (UseAfterFree a)
      end
  end.

(** [T& operator*() { return *m_ref; }] *)
Definition deref (self : hid) : M addr :=
  p ← load self;
  indirect p.

(** [const T& operator*() const { return *m_ref; }] *)
Definition deref_const (self : hid) : M addr :=
  p ← load self;
  indirect p.

(** [T* operator->() { return m_ref; }] *)
Definition arrow (self : hid) : M ptr := load self.

(** [const T* operator->() const { return m_ref; }] *)
Definition arrow_const (self : hid) : M ptr := load self.

(** [explicit operator bool() const { return m_ref; }] *)
Definition to_bool (self : hid) : M bool :=
  p ← load self;
  ret (bool_decide (p ≠ nullptr)).

(** [bool operator==(T* other) const { return m_ref == other; }] *)
Definition eq_ptr (self : hid) (other : ptr) : M bool :=
  p ← load self;
  ret (bool_decide (p = other)).

(** [bool operator==(const scoped_ref& other) const
      { return m_ref == other.get(); }] *)
Definition eq_ref (self other : hid) : M bool :=
  p ← load self;
  q ← get_const other;
  ret (bool_decide (p = q)).

(** [bool operator!=(T* other) const { return m_ref != other; }] *)
Definition ne_ptr (self : hid) (other : ptr) : M bool :=
  p ← load self;
  ret (bool_decide (p ≠ other)).

(** [bool operator!=(const scoped_ref& other) const
      { return m_ref != other.get(); }] *)
Definition ne_ref (self other : hid) : M bool :=
  p ← load self;
  q ← get_const other;
  ret (bool_decide (p ≠ q)).

(** *** Registration with the formatting of raised exceptions *)

(** [dispatch::raise_format<scoped_ref<T>>::prepare]:
    [static auto prepare(const scoped_ref<T>& ob) { return ob.get(); }] *)
Definition prepare (ob : hid) : M ptr := get_const ob.

End scoped_ref.

Arguments Object {T} ob_refcnt ob_body.
Arguments ob_refcnt {T} o.
Arguments ob_body {T} o.
Arguments World {T} heap handles trace.
Arguments heap {T} w.
Arguments handles {T} w.
Arguments trace {T} w.
Arguments Ok {T A} a w.
Arguments Fault {T A} f.
Arguments ret {T A} a w.
Arguments bind {T A B} m k w.
Arguments raise {T A} f w.
Arguments refcount {T} w a.
Arguments set_heap {T} hp w.
Arguments set_handles {T} hs w.
Arguments log {T} e w.
Arguments Py_XINCREF {T} p.
Arguments Py_XDECREF {T} p.
Arguments load {T} h w.
Arguments store {T} h p w.
Arguments init {T} h p w.
Arguments dispose {T} h w.
Arguments ctor_default {T} self.
Arguments ctor_nullptr {T} self.
Arguments ctor_adopt {T} self ref.
Arguments ctor_copy {T} self cpfrom.
Arguments ctor_move {T} self mvfrom.
Arguments assign_copy {T} self cpfrom.
Arguments assign_move {T} self mvfrom.
Arguments dtor {T} self.
Arguments escape {T} self.
Arguments get {T} self.
Arguments get_const {T} self.
Arguments to_ptr {T} self.
Arguments to_const_ptr {T} self.
Arguments to_PyObject {T} self.
Arguments to_const_PyObject {T} self.
Arguments indirect {T} p.
Arguments deref {T} self.
Arguments deref_const {T} self.
Arguments arrow {T} self.
Arguments arrow_const {T} self.
Arguments to_bool {T} self.
Arguments eq_ptr {T} self other.
Arguments eq_ref {T} self other.
Arguments ne_ptr {T} self other.
Arguments ne_ref {T} self other.
Arguments prepare {T} ob.

(** ** Vocabulary of the statements *)

(** [p] is null or points to an object that still has a credit. *)
Definition live {T} (w : world T) (p : ptr) : Prop :=
  match p with
  | Some a => 1 ≤ refcount w a
  | None => True
  end.

(** The calls that [Py_XINCREF p] and [Py_XDECREF p] make. *)
Definition retains (p : ptr) : list event :=
  match p with Some a => [Retain a] | None => [] end.

Definition releases (p : ptr) : list event :=
  match p with Some a => [Release a] | None => [] end.

(** [1] when [p] is the address [a], [0] otherwise. *)
Definition hits (p : ptr) (a : addr) : nat :=
  if decide (p = Some a) then 1 else 0.

(** ** Credits

    The number of live handles whose [m_ref] is the address [a]. *)
Definition holders (a : addr) (hs : gmap nat (option positive)) : nat :=
  size (filter (λ kv, kv.2 = Some a) hs).

(** Every live handle with a non-null [m_ref] has a credit of its own:
    an object's count covers the handles that point to it (invariant I1;
    a null handle counts for nothing, invariant I2). *)
Definition credits_ok {T} (w : world T) : Prop :=
  ∀ a, holders a (handles w) ≤ refcount w a.

(** The same, as a check over the handles of the world. *)
Definition credits_okb {T} (w : world T) : bool :=
  forallb (λ kv : nat * option positive,
             match kv.2 with
             | Some a => bool_decide (holders a (handles w) ≤ refcount w a)
             | None => true
             end) (map_to_list (handles w)).

(** [w] is the world right after [self] was moved from (by the move
    constructor or the move assignment of some handle) or escaped, in
    the world [w0]. *)
Definition emptied {T} (w0 : world T) (self : hid) (w : world T) : Prop :=
  (∃ h2, ctor_move h2 self w0 = Ok tt w) ∨
  (∃ h2, assign_move h2 self w0 = Ok h2 w) ∨
  (∃ r, escape self w0 = Ok r w).

(** The state of affairs after [h] has been moved into [h2], as the
    specification words it: [h] is null and tests false, [h2] holds the
    pointer, destroying [h] calls nothing and destroying [h2] makes
    exactly one release. *)
Definition moved_once {T} (h h2 : hid) (p : ptr) (w1 : world T) : Prop :=
  get h w1 = Ok None w1 ∧ to_bool h w1 = Ok false w1 ∧
  get h2 w1 = Ok p w1 ∧
  ∃ w2 w3 a, dtor h w1 = Ok tt w2 ∧ trace w2 = trace w1 ∧
             dtor h2 w2 = Ok tt w3 ∧ trace w3 = trace w2 ++ [Release a].

(** The same, with the release of [h2]'s destructor depending on the
    pointer that was moved: one release when it is non-null, none when
    it is null. *)
Definition moved {T} (h h2 : hid) (p : ptr) (w1 : world T) : Prop :=
  get h w1 = Ok None w1 ∧ to_bool h w1 = Ok false w1 ∧
  get h2 w1 = Ok p w1 ∧
  ∃ w2 w3, dtor h w1 = Ok tt w2 ∧ trace w2 = trace w1 ∧ heap w2 = heap w1 ∧
           dtor h2 w2 = Ok tt w3 ∧ trace w3 = trace w2 ++ releases p.

(** C4 as the specification states it, for move construction: whatever
    the handle [h] holds, destroying [h2] after the move makes exactly
    one release. *)
Definition move_claim (T : Type) : Prop :=
  ∀ (w : world T) (h h2 : hid) (p : ptr),
    credits_ok w → handles w !! h = Some p → handles w !! h2 = None →
    ∃ w1, ctor_move h2 h w = Ok tt w1 ∧ moved_once h h2 p w1.

(** ** The operations as a whole *)

(** The public operations of [scoped_ref], one constructor per member
    function of the class. *)
Inductive op : Type :=
  | CtorDefault (self : hid)
  | CtorNullptr (self : hid)
  | CtorAdopt (self : hid) (ref : ptr)
  | CtorCopy (self cpfrom : hid)
  | CtorMove (self mvfrom : hid)
  | AssignCopy (self cpfrom : hid)
  | AssignMove (self mvfrom : hid)
  | Dtor (self : hid)
  | Escape (self : hid)
  | Get (self : hid)
  | GetConst (self : hid)
  | ToPtr (self : hid)
  | ToConstPtr (self : hid)
  | ToPyObject (self : hid)
  | ToConstPyObject (self : hid)
  | Deref (self : hid)
  | DerefConst (self : hid)
  | Arrow (self : hid)
  | ArrowConst (self : hid)
  | ToBool (self : hid)
  | EqPtr (self : hid) (other : ptr)
  | EqRef (self other : hid)
  | NePtr (self : hid) (other : ptr)
  | NeRef (self other : hid).

(** Run an operation for its effect on the world. *)
Definition exec {T} (o : op) : M T unit :=
  match o with
  | CtorDefault self => ctor_default self
  | CtorNullptr self => ctor_nullptr self
  | CtorAdopt self ref => ctor_adopt self ref
  | CtorCopy self cpfrom => ctor_copy self cpfrom
  | CtorMove self mvfrom => ctor_move self mvfrom
  | AssignCopy self cpfrom => assign_copy self cpfrom ;; ret tt
  | AssignMove self mvfrom => assign_move self mvfrom ;; ret tt
  | Dtor self => dtor self
  | Escape self => escape self ;; ret tt
  | Get self => get self ;; ret tt
  | GetConst self => get_const self ;; ret tt
  | ToPtr self => to_ptr self ;; ret tt
  | ToConstPtr self => to_const_ptr self ;; ret tt
  | ToPyObject self => to_PyObject self ;; ret tt
  | ToConstPyObject self => to_const_PyObject self ;; ret tt
  | Deref self => deref self ;; ret tt
  | DerefConst self => deref_const self ;; ret tt
  | Arrow self => arrow self ;; ret tt
  | ArrowConst self => arrow_const self ;; ret tt
  | ToBool self => to_bool self ;; ret tt
  | EqPtr self other => eq_ptr self other ;; ret tt
  | EqRef self other => eq_ref self other ;; ret tt
  | NePtr self other => ne_ptr self other ;; ret tt
  | NeRef self other => ne_ref self other ;; ret tt
  end.

(** The precondition of adoption: the caller passes a credit that no
    handle holds yet. *)
Definition adoptable {T} (o : op) (w : world T) : Prop :=
  match o with
  | CtorAdopt _ (Some a) => holders a (handles w) < refcount w a
  | _ => True
  end.

(** The operation is applied to handles that exist (and a constructor
    to storage that holds no handle yet), and a dereference to a
    non-null handle. *)
Definition well_scoped {T} (o : op) (w : world T) : Prop :=
  match o with
  | CtorDefault self | CtorNullptr self | CtorAdopt self _ =>
      handles w !! self = None
  | CtorCopy self from | CtorMove self from =>
      handles w !! self = None ∧ is_Some (handles w !! from)
  | AssignCopy self from | AssignMove self from
  | EqRef self from | NeRef self from  =>
      is_Some (handles w !! self) ∧ is_Some (handles w !! from)
  | Deref self | DerefConst self =>
      ∃ a, handles w !! self = Some (Some a)
  | Dtor self | Escape self | Get self | GetConst self | ToPtr self
  | ToConstPtr self | ToPyObject self | ToConstPyObject self | Arrow self
  | ArrowConst self | ToBool self | EqPtr self _ | NePtr self _ =>
      is_Some (handles w !! self)
  end.


(** ** Programs over handles *)

(** A sequence of operations, run from left to right. *)
Fixpoint run {T} (os : list op) : M T unit :=
  match os with
  | [] => ret tt
  | o :: os' => exec o ;; run os'
  end.


(** The credit that an operation takes from its caller (adoption) or
    hands to its caller (escape), counted on the object at [a]. *)
Definition adopted (o : op) (a : addr) : nat :=
  match o with
  | CtorAdopt _ ref => hits ref a
  | _ => 0
  end.

Definition escaped {T} (o : op) (w : world T) (a : addr) : nat :=
  match o with
  | Escape self =>
      match handles w !! self with
      | Some p => hits p a
      | None => 0
      end
  | _ => 0
  end.

(** Operations that neither take a credit from the caller nor hand one
    out. *)
Definition internal (o : op) : Prop :=
  match o with
  | CtorAdopt _ _ | Escape _ => False
  | _ => True
  end.

(** Every object in the heap has a positive count. *)
Definition heap_ok {T} (w : world T) : Prop :=
  ∀ a o, heap w !! a = Some o → 1 ≤ ob_refcnt o.

(** All the credits are held by handles. *)
Definition all_held {T} (w : world T) : Prop :=
  ∀ a, refcount w a = holders a (handles w).

(** From [w] to [w1] no object was created and no object's contents
    were changed: what is in the heap of [w1] was in the heap of [w]
    with the same contents. *)
Definition contents_kept {T} (w w1 : world T) : Prop :=
  ∀ a o1, heap w1 !! a = Some o1 →
          ∃ o, heap w !! a = Some o ∧ ob_body o1 = ob_body o.

(** Whenever [m] returns, the worlds before and after are related by
    [R]. *)
Definition within {T A} (R : relation (world T)) (m : M T A) : Prop :=
  ∀ w x w1, m w = Ok x w1 → R w w1.

(** [std::swap] on two handles, as the standard library defines it:
    [scoped_ref tmp(std::move(a)); a = std::move(b); b = std::move(tmp);]
    and the end of [tmp]. *)
Definition swap {T} (tmp a b : hid) : M T unit :=
  ctor_move tmp a ;;
  assign_move a b ;;
  assign_move b tmp ;;
  dtor tmp.

(** ** Worlds used to run the operations on concrete inputs *)

(** One object at address 5 with a single credit, and no handle. *)
Definition w_fresh : world nat :=
  World {[ 5%positive := Object 1 42 ]} ∅ [].

(** Handle 0 has adopted the only credit of the object at address 5. *)
Definition w_sole : world nat :=
  World {[ 5%positive := Object 1 42 ]} {[ 0 := Some 5%positive ]} [].

(** Handles 0 and 1 each hold one of the two credits of the object at 5;
    handle 2 is empty. *)
Definition w_pair : world nat :=
  World {[ 5%positive := Object 2 42 ]}
        (<[ 0 := Some 5%positive ]> (<[ 1 := Some 5%positive ]> {[ 2 := None ]})) [].

(** Handles 0 and 1 hold the single credits of two different objects
    with the same contents. *)
Definition w_twins : world nat :=
  World (<[ 5%positive := Object 1 42 ]> {[ 6%positive := Object 1 42 ]})
        (<[ 0 := Some 5%positive ]> {[ 1 := Some 6%positive ]}) [].

(** ** Elementary facts about the model *)

Section facts.
Context {T : Type}.
Implicit Types (w : world T) (h self : hid) (p q : ptr) (a : addr).

Lemma bind_ok {A B} (m : M T A) (k : A → M T B) w x w1 :
  m w = Ok x w1 → (m ≫= k) w = k x w1.
Proof. intros Hm. unfold mbind, M_bind, bind. by rewrite Hm. Qed.

Lemma bind_fault {A B} (m : M T A) (k : A → M T B) w f :
  m w = Fault f → (m ≫= k) w = Fault f.
Proof. intros Hm. unfold mbind, M_bind, bind. by rewrite Hm. Qed.

Lemma load_ok w h p : handles w !! h = Some p → load h w = Ok p w.
Proof. intros Hh. unfold load. by rewrite Hh. Qed.

Lemma store_ok w h p q :
  handles w !! h = Some q →
  store h p w = Ok tt (set_handles (<[h := p]> (handles w)) w).
Proof. intros Hh. unfold store. by rewrite Hh. Qed.

Lemma init_ok w h p :
  handles w !! h = None →
  init h p w = Ok tt (set_handles (<[h := p]> (handles w)) w).
Proof. intros Hh. unfold init. by rewrite Hh. Qed.

Lemma dispose_ok w h q :
  handles w !! h = Some q →
  dispose h w = Ok tt (set_handles (delete h (handles w)) w).
Proof. intros Hh. unfold dispose. by rewrite Hh. Qed.

Lemma refcount_set_handles w hs a :
  refcount (set_handles hs w) a = refcount w a.
Proof. reflexivity. Qed.

Lemma live_set_handles w hs p : live (set_handles hs w) p ↔ live w p.
Proof. by destruct p. Qed.

Lemma hits_eq a : hits (Some a) a = 1.
Proof. unfold hits. by rewrite decide_True. Qed.

Lemma hits_ne p a : p ≠ Some a → hits p a = 0.
Proof. intros Hne. unfold hits. by rewrite decide_False. Qed.

(** What a release that returns has done: it touched no handle, logged
    itself and took one credit from the object. *)
Lemma Py_XDECREF_inv w p w1 :
  Py_XDECREF p w = Ok tt w1 →
  handles w1 = handles w ∧ trace w1 = trace w ++ releases p ∧
  ∀ a, refcount w1 a = refcount w a - hits p a.
Proof.
  destruct p as [b|]; simpl.
  - destruct (heap w !! b) as [o|] eqn:Hb; [|done]. intros [= <-]. simpl.
    repeat split. intros a. unfold refcount. simpl.
    destruct (decide (a = b)) as [->|Hne].
    + rewrite hits_eq, Hb. case_decide.
      * rewrite lookup_delete_eq. lia.
      * by rewrite lookup_insert_eq.
    + rewrite hits_ne by congruence. case_decide.
      * rewrite lookup_delete_ne by done. destruct (heap w !! a); lia.
      * rewrite lookup_insert_ne by done. destruct (heap w !! a); lia.
  - intros [= <-]. repeat split.
    + by rewrite app_nil_r.
    + intros a. rewrite hits_ne by done. lia.
Qed.

(** What a retain that returns has done. *)
Lemma Py_XINCREF_inv w p w1 :
  Py_XINCREF p w = Ok tt w1 →
  handles w1 = handles w ∧ trace w1 = trace w ++ retains p ∧
  ∀ a, refcount w1 a = refcount w a + hits p a.
Proof.
  destruct p as [b|]; simpl.
  - destruct (heap w !! b) as [o|] eqn:Hb; [|done]. intros [= <-]. simpl.
    repeat split. intros a. unfold refcount. simpl.
    destruct (decide (a = b)) as [->|Hne].
    + rewrite hits_eq, Hb, lookup_insert_eq. simpl. lia.
    + rewrite hits_ne by congruence. rewrite lookup_insert_ne by done. lia.
  - intros [= <-]. repeat split.
    + by rewrite app_nil_r.
    + intros a. rewrite hits_ne by done. lia.
Qed.

(** On a live pointer the release and the retain do return. *)
Lemma Py_XDECREF_spec w p :
  live w p →
  ∃ w1, Py_XDECREF p w = Ok tt w1 ∧
        handles w1 = handles w ∧
        trace w1 = trace w ++ releases p ∧
        ∀ a, refcount w1 a = refcount w a - hits p a.
Proof.
  intros Hlive. assert (∃ w1, Py_XDECREF p w = Ok tt w1) as [w1 Hrun].
  { destruct p as [b|]; simpl; [|by eexists]. simpl in Hlive.
    unfold refcount in Hlive. destruct (heap w !! b); [by eexists|lia]. }
  exists w1. split; [done|]. by apply Py_XDECREF_inv.
Qed.

Lemma Py_XINCREF_spec w p :
  live w p →
  ∃ w1, Py_XINCREF p w = Ok tt w1 ∧
        handles w1 = handles w ∧
        trace w1 = trace w ++ retains p ∧
        ∀ a, refcount w1 a = refcount w a + hits p a.
Proof.
  intros Hlive. assert (∃ w1, Py_XINCREF p w = Ok tt w1) as [w1 Hrun].
  { destruct p as [b|]; simpl; [|by eexists]. simpl in Hlive.
    unfold refcount in Hlive. destruct (heap w !! b); [by eexists|lia]. }
  exists w1. split; [done|]. by apply Py_XINCREF_inv.
Qed.

(** A retain of a freed object is undefined. *)
Lemma Py_XINCREF_freed w a :
  heap w !! a = None → Py_XINCREF (Some a) w = Fault (UseAfterFree a).
Proof. intros Ha. simpl. by rewrite Ha. Qed.

End facts.

(** ** Counting the holders of an object *)

Section credits.
Context {T : Type}.
Implicit Types (w : world T) (h self : hid) (p q : ptr) (a : addr).
Implicit Types (hs : gmap nat (option positive)).

Lemma holders_empty a : holders a ∅ = 0.
Proof. unfold holders. by rewrite map_filter_empty, map_size_empty. Qed.

Lemma holders_delete hs h a :
  holders a hs
  = holders a (delete h hs) + match hs !! h with Some p => hits p a | None => 0 end.
Proof.
  unfold holders. rewrite map_filter_delete, map_size_delete.
  destruct (hs !! h) as [p|] eqn:Hh.
  - destruct (decide (p = Some a)) as [->|Hne].
    + rewrite hits_eq.
      assert (Hin : filter (λ kv, kv.2 = Some a) hs !! h = Some (Some a))
        by (by apply map_lookup_filter_Some_2).
      rewrite Hin.
      assert (size (filter (λ kv, kv.2 = Some a) hs) ≠ 0); [|simpl; lia].
      apply map_size_ne_0_lookup_2 with h. by rewrite Hin.
    + rewrite hits_ne by done.
      assert (Hout : filter (λ kv : nat * option positive, kv.2 = Some a) hs !! h = None).
      { apply map_lookup_filter_None_2. right. intros x Hx. simpl. congruence. }
      rewrite Hout. simpl. unfold id. lia.
  - assert (Hout : filter (λ kv : nat * option positive, kv.2 = Some a) hs !! h = None).
    { apply map_lookup_filter_None_2. by left. }
    rewrite Hout. simpl. unfold id. lia.
Qed.

Lemma holders_insert hs h p a :
  holders a (<[h := p]> hs) = holders a (delete h hs) + hits p a.
Proof.
  rewrite (holders_delete (<[h := p]> hs) h a).
  by rewrite delete_insert_eq, lookup_insert_eq.
Qed.

Lemma holders_insert_fresh hs h p a :
  hs !! h = None → holders a (<[h := p]> hs) = holders a hs + hits p a.
Proof. intros Hh. by rewrite holders_insert, delete_id. Qed.

Lemma holders_lookup hs h a :
  hs !! h = Some (Some a) → holders a hs = S (holders a (delete h hs)).
Proof. intros Hh. rewrite (holders_delete hs h a), Hh, hits_eq. lia. Qed.

(** A handle that points to [a] is counted. *)
Lemma holders_one hs h a : hs !! h = Some (Some a) → 1 ≤ holders a hs.
Proof. intros Hh. rewrite (holders_lookup hs h a Hh). lia. Qed.

(** Two different handles that point to [a] are both counted. *)
Lemma holders_two hs h1 h2 a :
  h1 ≠ h2 → hs !! h1 = Some (Some a) → hs !! h2 = Some (Some a) →
  2 ≤ holders a hs.
Proof.
  intros Hne H1 H2. rewrite (holders_lookup hs h1 a H1).
  assert (1 ≤ holders a (delete h1 hs)); [|lia].
  apply holders_one with h2. by rewrite lookup_delete_ne.
Qed.

(** No handle points to [a]: nobody is counted. *)
Lemma holders_none hs a :
  (∀ h, hs !! h ≠ Some (Some a)) → holders a hs = 0.
Proof.
  intros Hno. unfold holders. apply map_size_empty_iff, map_empty.
  intros h. apply map_lookup_filter_None_2.
  destruct (hs !! h) as [p|] eqn:Hh; [right|by left].
  intros x [= <-]. simpl. intros ->. by apply (Hno h).
Qed.

Lemma credits_live w h p :
  credits_ok w → handles w !! h = Some p → live w p.
Proof.
  intros Hok Hh. destruct p as [a|]; [|done]. simpl.
  pose proof (Hok a). pose proof (holders_one _ _ _ Hh). lia.
Qed.

Lemma credits_distinct w h1 h2 a :
  credits_ok w → h1 ≠ h2 →
  handles w !! h1 = Some (Some a) → handles w !! h2 = Some (Some a) →
  2 ≤ refcount w a.
Proof.
  intros Hok Hne H1 H2. pose proof (Hok a).
  pose proof (holders_two _ _ _ _ Hne H1 H2). lia.
Qed.

Lemma credits_okb_true w : credits_okb w = true → credits_ok w.
Proof.
  unfold credits_okb. rewrite forallb_forall. intros Hall a.
  destruct (decide (holders a (handles w) = 0)) as [->|Hpos]; [lia|].
  destruct (decide (holders a (handles w) ≤ refcount w a)) as [|Hbad]; [done|].
  exfalso. apply Hpos, holders_none. intros h Hh.
  apply elem_of_map_to_list, list_elem_of_In, Hall in Hh. simpl in Hh.
  by apply bool_decide_eq_true in Hh.
Qed.

End credits.

(** ** What each operation does *)

Section operations.
Context {T : Type}.
Implicit Types (w : world T) (h self : hid) (p q old : ptr) (a : addr).

(** Run the next action of a sequence, given its outcome. *)
Ltac step H := rewrite (bind_ok _ _ _ _ _ H).

Lemma dtor_run w self p :
  handles w !! self = Some p → live w p →
  ∃ w1, dtor self w = Ok tt w1 ∧
        handles w1 = delete self (handles w) ∧
        trace w1 = trace w ++ releases p ∧
        ∀ a, refcount w1 a = refcount w a - hits p a.
Proof.
  intros Hself Hlive.
  destruct (Py_XDECREF_spec w p Hlive) as (w1 & Hdec & Hhs & Htr & Hrc).
  unfold dtor. step (load_ok w self p Hself). step Hdec.
  rewrite (dispose_ok w1 self p) by (by rewrite Hhs).
  eexists. split; [reflexivity|]. simpl. by rewrite Hhs.
Qed.

Lemma dtor_null w self :
  handles w !! self = Some None →
  dtor self w = Ok tt (set_handles (delete self (handles w)) w).
Proof.
  intros Hself. unfold dtor. step (load_ok w self None Hself).
  simpl. unfold mbind, M_bind, bind, ret. apply (dispose_ok w self None Hself).
Qed.

Lemma escape_run w self p :
  handles w !! self = Some p →
  escape self w = Ok p (set_handles (<[self := None]> (handles w)) w).
Proof.
  intros Hself. unfold escape. step (load_ok w self p Hself).
  by step (store_ok w self None p Hself).
Qed.

Lemma ctor_copy_run w self cpfrom p :
  handles w !! cpfrom = Some p → handles w !! self = None → live w p →
  ∃ w1, ctor_copy self cpfrom w = Ok tt w1 ∧
        handles w1 = <[self := p]> (handles w) ∧
        trace w1 = trace w ++ retains p ∧
        ∀ a, refcount w1 a = refcount w a + hits p a.
Proof.
  intros Hfrom Hself Hlive.
  set (w0 := set_handles (<[self := p]> (handles w)) w).
  destruct (Py_XINCREF_spec w0 p) as (w1 & Hinc & Hhs & Htr & Hrc).
  { by apply live_set_handles. }
  unfold ctor_copy. step (load_ok w cpfrom p Hfrom).
  step (init_ok w self p Hself).
  rewrite (bind_ok _ _ _ p w0) by (apply load_ok; simpl; apply lookup_insert_eq).
  rewrite Hinc. by exists w1.
Qed.

Lemma ctor_move_run w self mvfrom p :
  handles w !! mvfrom = Some p → handles w !! self = None →
  ctor_move self mvfrom w
  = Ok tt (set_handles (<[mvfrom := None]> (<[self := p]> (handles w))) w).
Proof.
  intros Hfrom Hself. assert (self ≠ mvfrom) by congruence.
  unfold ctor_move. step (load_ok w mvfrom p Hfrom).
  step (init_ok w self p Hself).
  rewrite (store_ok _ mvfrom None p); [done|].
  simpl. by rewrite lookup_insert_ne.
Qed.

Lemma assign_move_run w self mvfrom old p :
  handles w !! self = Some old → handles w !! mvfrom = Some p → live w old →
  ∃ w1, assign_move self mvfrom w = Ok self w1 ∧
        handles w1 = <[mvfrom := None]> (<[self := p]> (handles w)) ∧
        trace w1 = trace w ++ releases old ∧
        ∀ a, refcount w1 a = refcount w a - hits old a.
Proof.
  intros Hself Hfrom Hlive.
  destruct (Py_XDECREF_spec w old Hlive) as (w1 & Hdec & Hhs & Htr & Hrc).
  unfold assign_move. step (load_ok w self old Hself). step Hdec.
  rewrite (bind_ok _ _ _ p w1) by (apply load_ok; by rewrite Hhs).
  rewrite (bind_ok _ _ _ tt (set_handles (<[self := p]> (handles w1)) w1))
    by (apply store_ok with old; by rewrite Hhs).
  set (w2 := set_handles (<[self := p]> (handles w1)) w1).
  assert (Hfrom2 : handles w2 !! mvfrom = Some p).
  { simpl. destruct (decide (mvfrom = self)) as [->|Hne].
    - apply lookup_insert_eq.
    - by rewrite lookup_insert_ne, Hhs. }
  step (store_ok w2 mvfrom None p Hfrom2).
  eexists. split; [reflexivity|]. simpl. by rewrite Hhs.
Qed.

(** Copy assignment runs to its end when the incoming pointer is still
    live after the old one has been released. *)
Lemma assign_copy_run w self cpfrom old p :
  handles w !! self = Some old → handles w !! cpfrom = Some p → live w old →
  (∀ a, p = Some a → 1 + hits old a ≤ refcount w a) →
  ∃ w1, assign_copy self cpfrom w = Ok self w1 ∧
        handles w1 = <[self := p]> (handles w) ∧
        trace w1 = trace w ++ releases old ++ retains p ∧
        ∀ a, refcount w1 a = refcount w a - hits old a + hits p a.
Proof.
  intros Hself Hfrom Hlive Hkeep.
  destruct (Py_XDECREF_spec w old Hlive) as (w1 & Hdec & Hhs & Htr & Hrc).
  set (w2 := set_handles (<[self := p]> (handles w1)) w1).
  destruct (Py_XINCREF_spec w2 p) as (w3 & Hinc & Hhs3 & Htr3 & Hrc3).
  { apply live_set_handles. destruct p as [a|]; [|done]. simpl.
    rewrite Hrc. specialize (Hkeep a eq_refl). lia. }
  unfold assign_copy. step (load_ok w self old Hself). step Hdec.
  rewrite (bind_ok _ _ _ p w1) by (apply load_ok; by rewrite Hhs).
  rewrite (bind_ok _ _ _ tt w2) by (apply store_ok with old; by rewrite Hhs).
  rewrite (bind_ok _ _ _ p w2) by (apply load_ok; simpl; apply lookup_insert_eq).
  step Hinc. exists w3. split; [done|]. rewrite Hhs3, Htr3. simpl.
  rewrite Hhs, Htr, <- app_assoc. repeat split.
  intros a. rewrite Hrc3. unfold w2. by rewrite refcount_set_handles, Hrc.
Qed.

(** Copy assignment of a handle to itself when the handle holds the only
    credit: the release frees the object, and the retain that follows is
    applied to freed memory. *)
Lemma assign_copy_self_sole w self a :
  handles w !! self = Some (Some a) → refcount w a = 1 →
  assign_copy self self w = Fault (UseAfterFree a).
Proof.
  intros Hself Hone.
  destruct (Py_XDECREF_spec w (Some a)) as (w1 & Hdec & Hhs & Htr & Hrc).
  { simpl. lia. }
  assert (Hfreed : heap w1 !! a = None).
  { specialize (Hrc a). rewrite hits_eq, Hone in Hrc.
    revert Hdec. simpl. unfold refcount in Hone.
    destruct (heap w !! a) as [o|]; [|done]. unfold log. rewrite decide_True by lia.
    intros [= <-]. simpl. apply lookup_delete_eq. }
  unfold assign_copy. step (load_ok w self (Some a) Hself). step Hdec.
  rewrite (bind_ok _ _ _ (Some a) w1) by (apply load_ok; by rewrite Hhs).
  rewrite (bind_ok _ _ _ tt (set_handles (<[self := Some a]> (handles w1)) w1))
    by (apply store_ok with (Some a); by rewrite Hhs).
  rewrite (bind_ok _ _ _ (Some a) (set_handles (<[self := Some a]> (handles w1)) w1))
    by (apply load_ok; simpl; apply lookup_insert_eq).
  apply bind_fault. by apply Py_XINCREF_freed.
Qed.

End operations.

(** ** Handles that have been emptied *)

Section emptied.
Context {T : Type}.
Implicit Types (w : world T) (h self : hid) (p q old : ptr) (a : addr).

Ltac invert_run :=
  unfold mbind, M_bind, bind, load, store, init, dispose, ret, log;
  intros; repeat case_match; simplify_eq; simpl.

Lemma ctor_move_source_null w0 h2 self w :
  ctor_move h2 self w0 = Ok tt w → handles w !! self = Some None.
Proof.
  unfold ctor_move. invert_run. apply lookup_insert_eq.
Qed.

Lemma assign_move_source_null w0 h2 self w :
  assign_move h2 self w0 = Ok h2 w → handles w !! self = Some None.
Proof.
  unfold assign_move. invert_run. apply lookup_insert_eq.
Qed.

Lemma escape_null w0 self r w :
  escape self w0 = Ok r w → handles w !! self = Some None.
Proof.
  unfold escape. invert_run. apply lookup_insert_eq.
Qed.

Lemma emptied_null w0 self w : emptied w0 self w → handles w !! self = Some None.
Proof.
  intros [[h2 Hrun]|[[h2 Hrun]|[r Hrun]]];
    eauto using ctor_move_source_null, assign_move_source_null, escape_null.
Qed.

End emptied.

(** ** Destruction, adoption, escape *)

Section lifetime.
Context {T : Type}.
Implicit Types (w : world T) (h self : hid) (p q old : ptr) (a : addr).

(** C7: the destructor releases the pointer it holds exactly once when
    the pointer is non-null and makes no call to the runtime when it is
    null; a handle that was moved from or escaped is in the second case,
    so destroying it releases nothing. *)
Theorem dtor_releases_once w self p :
  handles w !! self = Some p → live w p →
  ∃ w1, dtor self w = Ok tt w1 ∧
        handles w1 = delete self (handles w) ∧
        match p with
        | Some a => trace w1 = trace w ++ [Release a] ∧
                    refcount w1 a = refcount w a - 1
        | None => trace w1 = trace w ∧ heap w1 = heap w
        end ∧
        ∀ w0, emptied w0 self w → p = None.
Proof.
  intros Hself Hlive. destruct p as [a|].
  - destruct (dtor_run w self (Some a) Hself Hlive) as (w1 & Hrun & Hhs & Htr & Hrc).
    exists w1. repeat split; [done..| |].
    + by rewrite Hrc, hits_eq.
    + intros w0 Hnull%emptied_null. congruence.
  - eexists. split; [by apply dtor_null|]. simpl. repeat split.
Qed.

(** C6: adopting a non-null pointer that carries a credit stores the
    pointer as it is and makes no retain; destroying the handle then
    makes exactly one release of that pointer. *)
Theorem adopt_then_dtor w self a :
  handles w !! self = None → 1 ≤ refcount w a →
  ∃ w1, ctor_adopt self (Some a) w = Ok tt w1 ∧
        get self w1 = Ok (Some a) w1 ∧
        trace w1 = trace w ∧ heap w1 = heap w ∧
        ∃ w2, dtor self w1 = Ok tt w2 ∧
              trace w2 = trace w ++ [Release a] ∧
              refcount w2 a = refcount w a - 1.
Proof.
  intros Hfresh Hcredit.
  set (w1 := set_handles (<[self := Some a]> (handles w)) w).
  assert (Hself : handles w1 !! self = Some (Some a)) by apply lookup_insert_eq.
  exists w1. split; [by apply init_ok|].
  split; [by apply load_ok|]. repeat split.
  destruct (dtor_run w1 self (Some a) Hself) as (w2 & Hrun & _ & Htr & Hrc);
    [done|].
  exists w2. repeat split; [done..|]. by rewrite Hrc, hits_eq.
Qed.

(** C5: [escape] returns the stored pointer, leaves the handle null and
    calls neither retain nor release; destroying the handle afterwards
    releases nothing, so every object keeps the count it had. *)
Theorem escape_keeps_credit w self p :
  handles w !! self = Some p →
  ∃ w1, escape self w = Ok p w1 ∧
        trace w1 = trace w ∧ heap w1 = heap w ∧
        get self w1 = Ok None w1 ∧ to_bool self w1 = Ok false w1 ∧
        ∃ w2, dtor self w1 = Ok tt w2 ∧
              trace w2 = trace w ∧ heap w2 = heap w ∧
              ∀ a, refcount w2 a = refcount w a.
Proof.
  intros Hself.
  set (w1 := set_handles (<[self := None]> (handles w)) w).
  assert (Hnull : handles w1 !! self = Some None) by apply lookup_insert_eq.
  exists w1. split; [by apply escape_run|]. repeat split.
  - by apply load_ok.
  - unfold to_bool. by rewrite (bind_ok _ _ _ _ _ (load_ok _ _ _ Hnull)).
  - eexists. split; [by apply dtor_null|]. repeat split.
Qed.

(** C3: copy construction from a non-null handle makes exactly one
    retain of its pointer; the new handle stores the same pointer, the
    source and every other handle are unchanged and the object is still
    live; destroying the two handles, in either order, makes exactly one
    release each. *)
Theorem copy_ctor_retains_once w self cpfrom a :
  handles w !! cpfrom = Some (Some a) → handles w !! self = None →
  1 ≤ refcount w a →
  ∃ w1, ctor_copy self cpfrom w = Ok tt w1 ∧
        trace w1 = trace w ++ [Retain a] ∧
        refcount w1 a = S (refcount w a) ∧
        get self w1 = Ok (Some a) w1 ∧
        get cpfrom w1 = Ok (Some a) w1 ∧
        (∀ h, h ≠ self → handles w1 !! h = handles w !! h) ∧
        (∃ w2 w3, dtor cpfrom w1 = Ok tt w2 ∧
                  trace w2 = trace w1 ++ [Release a] ∧
                  dtor self w2 = Ok tt w3 ∧
                  trace w3 = trace w2 ++ [Release a] ∧
                  refcount w3 a = refcount w a - 1) ∧
        (∃ w2 w3, dtor self w1 = Ok tt w2 ∧
                  trace w2 = trace w1 ++ [Release a] ∧
                  dtor cpfrom w2 = Ok tt w3 ∧
                  trace w3 = trace w2 ++ [Release a] ∧
                  refcount w3 a = refcount w a - 1).
Proof.
  intros Hfrom Hfresh Hcredit. assert (Hne : cpfrom ≠ self) by congruence.
  destruct (ctor_copy_run w self cpfrom (Some a) Hfrom Hfresh Hcredit)
    as (w1 & Hrun & Hhs & Htr & Hrc).
  assert (Hrc1 : refcount w1 a = S (refcount w a)) by (rewrite Hrc, hits_eq; lia).
  assert (Hself1 : handles w1 !! self = Some (Some a))
    by (rewrite Hhs; apply lookup_insert_eq).
  assert (Hfrom1 : handles w1 !! cpfrom = Some (Some a))
    by (by rewrite Hhs, lookup_insert_ne).
  exists w1. split; [done|]. split; [done|]. split; [done|].
  split; [by apply load_ok|]. split; [by apply load_ok|].
  split; [intros h Hh; by rewrite Hhs, lookup_insert_ne|].
  split.
  - destruct (dtor_run w1 cpfrom (Some a) Hfrom1) as (w2 & Hrun2 & Hhs2 & Htr2 & Hrc2);
      [simpl; lia|].
    destruct (dtor_run w2 self (Some a)) as (w3 & Hrun3 & Hhs3 & Htr3 & Hrc3).
    { by rewrite Hhs2, lookup_delete_ne. }
    { simpl. rewrite Hrc2, hits_eq. lia. }
    exists w2, w3. repeat split; [done..|].
    rewrite Hrc3, Hrc2, hits_eq. lia.
  - destruct (dtor_run w1 self (Some a) Hself1) as (w2 & Hrun2 & Hhs2 & Htr2 & Hrc2);
      [simpl; lia|].
    destruct (dtor_run w2 cpfrom (Some a)) as (w3 & Hrun3 & Hhs3 & Htr3 & Hrc3).
    { by rewrite Hhs2, lookup_delete_ne. }
    { simpl. rewrite Hrc2, hits_eq. lia. }
    exists w2, w3. repeat split; [done..|].
    rewrite Hrc3, Hrc2, hits_eq. lia.
Qed.

End lifetime.

(** ** Moves *)

Section moves.
Context {T : Type}.
Implicit Types (w : world T) (h self : hid) (p q old : ptr) (a : addr).

Lemma to_bool_null w h : handles w !! h = Some None → to_bool h w = Ok false w.
Proof.
  intros Hh. unfold to_bool. by rewrite (bind_ok _ _ _ _ _ (load_ok _ _ _ Hh)).
Qed.

(** After a move, destroying the two handles goes as [moved] says. *)
Lemma moved_intro w1 h h2 p :
  h ≠ h2 → handles w1 !! h = Some None → handles w1 !! h2 = Some p →
  live w1 p → moved h h2 p w1.
Proof.
  intros Hne Hh Hh2 Hlive. split; [by apply load_ok|].
  split; [by apply to_bool_null|]. split; [by apply load_ok|].
  set (w2 := set_handles (delete h (handles w1)) w1).
  destruct (dtor_run w2 h2 p) as (w3 & Hrun & _ & Htr & _).
  { simpl. by rewrite lookup_delete_ne. }
  { by apply live_set_handles. }
  exists w2, w3. split; [by apply dtor_null|]. by repeat split.
Qed.

(** C4 (amended): moving a handle [h] into another handle [h2] leaves
    [h] null and [h2] with [h]'s pointer, without a retain or a release
    of that pointer; move assignment first releases the pointer [h2]
    held, once if it was non-null; afterwards destroying [h] calls
    nothing and destroying [h2] makes one release if the moved pointer
    is non-null and none if it is null. *)
Theorem move_transfers_credit w h h2 p :
  credits_ok w → handles w !! h = Some p → h ≠ h2 →
  (handles w !! h2 = None →
     ∃ w1, ctor_move h2 h w = Ok tt w1 ∧
           trace w1 = trace w ∧ heap w1 = heap w ∧ moved h h2 p w1) ∧
  (∀ q, handles w !! h2 = Some q →
     ∃ w1, assign_move h2 h w = Ok h2 w1 ∧
           trace w1 = trace w ++ releases q ∧
           (∀ a, refcount w1 a = refcount w a - hits q a) ∧
           moved h h2 p w1).
Proof.
  intros Hok Hh Hne. split.
  - intros Hfresh. eexists. split; [by apply ctor_move_run|]. simpl.
    split; [done|]. split; [done|]. apply moved_intro; [done|simpl..].
    + apply lookup_insert_eq.
    + rewrite lookup_insert_ne by done. apply lookup_insert_eq.
    + apply live_set_handles. by apply credits_live with h.
  - intros q Hh2.
    destruct (assign_move_run w h2 h q p Hh2 Hh) as (w1 & Hrun & Hhs & Htr & Hrc).
    { by apply credits_live with h2. }
    exists w1. split; [done|]. split; [done|]. split; [done|].
    apply moved_intro; [done|rewrite Hhs..|].
    + apply lookup_insert_eq.
    + rewrite lookup_insert_ne by done. apply lookup_insert_eq.
    + destruct p as [a|]; [|done]. simpl. rewrite Hrc.
      destruct (decide (q = Some a)) as [->|Hq].
      * pose proof (credits_distinct w h h2 a Hok Hne Hh Hh2).
        rewrite hits_eq. lia.
      * pose proof (credits_live w h (Some a) Hok Hh) as Hlive. simpl in Hlive.
        rewrite hits_ne by done. lia.
Qed.

(** C9: move assignment of a non-null handle to itself releases the
    pointer once and leaves the handle null, so that its destructor
    releases nothing more. *)
Theorem self_move_assign_releases w self a :
  handles w !! self = Some (Some a) → 1 ≤ refcount w a →
  ∃ w1, assign_move self self w = Ok self w1 ∧
        trace w1 = trace w ++ [Release a] ∧
        refcount w1 a = refcount w a - 1 ∧
        get self w1 = Ok None w1 ∧ to_bool self w1 = Ok false w1 ∧
        ∃ w2, dtor self w1 = Ok tt w2 ∧ trace w2 = trace w1 ∧ heap w2 = heap w1.
Proof.
  intros Hself Hcredit.
  destruct (assign_move_run w self self (Some a) (Some a) Hself Hself Hcredit)
    as (w1 & Hrun & Hhs & Htr & Hrc).
  assert (Hnull : handles w1 !! self = Some None)
    by (rewrite Hhs; apply lookup_insert_eq).
  exists w1. split; [done|]. split; [done|].
  split; [by rewrite Hrc, hits_eq|].
  split; [by apply load_ok|]. split; [by apply to_bool_null|].
  eexists. split; [by apply dtor_null|]. by repeat split.
Qed.

End moves.

(** C4, as stated, fails: moving the empty handle 2 of [w_pair] into a
    new handle 3, the destructor of handle 3 finds a null pointer and
    releases nothing. *)
Lemma move_claim_fails_on_null : ¬ move_claim nat.
Proof.
  intros Hclaim.
  destruct (Hclaim w_pair 2 3 None) as (w1 & Hrun & _ & _ & _ & Hdtors).
  - by apply credits_okb_true.
  - reflexivity.
  - reflexivity.
  - rewrite (ctor_move_run w_pair 3 2 None) in Hrun by reflexivity.
    injection Hrun as <-.
    destruct Hdtors as (w2 & w3 & a & Hd1 & _ & Hd2 & Htr).
    rewrite dtor_null in Hd1 by reflexivity. injection Hd1 as <-.
    rewrite dtor_null in Hd2 by reflexivity. injection Hd2 as <-.
    simpl in Htr. discriminate Htr.
Qed.

Lemma move_transfers_credit_witness :
  (∃ w1, assign_move 1 0 w_pair = Ok 1 w1 ∧
         trace w1 = [Release 5%positive] ∧
         (∀ a, refcount w1 a = refcount w_pair a - hits (Some 5%positive) a) ∧
         moved 0 1 (Some 5%positive) w1).
Proof.
  destruct (move_transfers_credit w_pair 0 1 (Some 5%positive)) as [_ Hassign].
  - apply credits_okb_true. vm_compute. reflexivity.
  - reflexivity.
  - lia.
  - apply (Hassign (Some 5%positive)). reflexivity.
Defined.

Lemma self_move_assign_releases_witness :
  ∃ w1, assign_move 0 0 w_sole = Ok 0 w1 ∧
        trace w1 = trace w_sole ++ [Release 5%positive] ∧
        refcount w1 5%positive = refcount w_sole 5%positive - 1 ∧
        get 0 w1 = Ok None w1 ∧ to_bool 0 w1 = Ok false w1 ∧
        ∃ w2, dtor 0 w1 = Ok tt w2 ∧ trace w2 = trace w1 ∧ heap w2 = heap w1.
Proof.
  apply (self_move_assign_releases w_sole 0 5%positive).
  - reflexivity.
  - vm_compute. lia.
Defined.

Lemma dtor_releases_once_witness :
  ∃ w1, dtor 0 w_sole = Ok tt w1 ∧
        handles w1 = delete 0 (handles w_sole) ∧
        (trace w1 = trace w_sole ++ [Release 5%positive] ∧
         refcount w1 5%positive = refcount w_sole 5%positive - 1) ∧
        ∀ w0, emptied w0 0 w_sole → Some 5%positive = None.
Proof.
  apply (dtor_releases_once w_sole 0 (Some 5%positive)).
  - reflexivity.
  - vm_compute. lia.
Defined.

Lemma adopt_then_dtor_witness :
  ∃ w1, ctor_adopt 0 (Some 5%positive) w_fresh = Ok tt w1 ∧
        get 0 w1 = Ok (Some 5%positive) w1 ∧
        trace w1 = trace w_fresh ∧ heap w1 = heap w_fresh ∧
        ∃ w2, dtor 0 w1 = Ok tt w2 ∧
              trace w2 = trace w_fresh ++ [Release 5%positive] ∧
              refcount w2 5%positive = refcount w_fresh 5%positive - 1.
Proof.
  apply (adopt_then_dtor w_fresh 0 5%positive).
  - reflexivity.
  - vm_compute. lia.
Defined.

Lemma escape_keeps_credit_witness :
  ∃ w1, escape 0 w_sole = Ok (Some 5%positive) w1 ∧
        trace w1 = trace w_sole ∧ heap w1 = heap w_sole ∧
        get 0 w1 = Ok None w1 ∧ to_bool 0 w1 = Ok false w1 ∧
        ∃ w2, dtor 0 w1 = Ok tt w2 ∧
              trace w2 = trace w_sole ∧ heap w2 = heap w_sole ∧
              ∀ a, refcount w2 a = refcount w_sole a.
Proof. apply (escape_keeps_credit w_sole 0 (Some 5%positive)). reflexivity. Defined.

Lemma copy_ctor_retains_once_witness :
  ∃ w1, ctor_copy 1 0 w_sole = Ok tt w1 ∧
        trace w1 = trace w_sole ++ [Retain 5%positive] ∧
        refcount w1 5%positive = S (refcount w_sole 5%positive).
Proof.
  destruct (copy_ctor_retains_once w_sole 1 0 5%positive)
    as (w1 & Hrun & Htr & Hrc & _).
  - reflexivity.
  - reflexivity.
  - vm_compute. lia.
  - by exists w1.
Defined.

(** ** Observers and comparisons *)

Section observers.
Context {T : Type}.
Implicit Types (w : world T) (h self other : hid) (p q r : ptr) (a : addr).

Ltac run_load H := rewrite (bind_ok _ _ _ _ _ (load_ok _ _ _ H)).

Lemma eq_ptr_run w self p r :
  handles w !! self = Some p → eq_ptr self r w = Ok (bool_decide (p = r)) w.
Proof. intros Hs. unfold eq_ptr. by run_load Hs. Qed.

Lemma ne_ptr_run w self p r :
  handles w !! self = Some p → ne_ptr self r w = Ok (bool_decide (p ≠ r)) w.
Proof. intros Hs. unfold ne_ptr. by run_load Hs. Qed.

Lemma eq_ref_run w self other p q :
  handles w !! self = Some p → handles w !! other = Some q →
  eq_ref self other w = Ok (bool_decide (p = q)) w.
Proof. intros Hs Ho. unfold eq_ref, get_const. run_load Hs. by run_load Ho. Qed.

Lemma ne_ref_run w self other p q :
  handles w !! self = Some p → handles w !! other = Some q →
  ne_ref self other w = Ok (bool_decide (p ≠ q)) w.
Proof. intros Hs Ho. unfold ne_ref, get_const. run_load Hs. by run_load Ho. Qed.

Lemma to_bool_run w self p :
  handles w !! self = Some p → to_bool self w = Ok (bool_decide (p ≠ None)) w.
Proof. intros Hs. unfold to_bool. by run_load Hs. Qed.

Lemma deref_run w self a :
  handles w !! self = Some (Some a) → is_Some (heap w !! a) →
  deref self w = Ok a w ∧ deref_const self w = Ok a w.
Proof.
  intros Hs [o Ho]. unfold deref, deref_const. run_load Hs. simpl.
  by rewrite Ho.
Qed.

Lemma deref_frame w self x w1 :
  deref self w = Ok x w1 ∨ deref_const self w = Ok x w1 → w1 = w.
Proof.
  unfold deref, deref_const, mbind, M_bind, bind, load, indirect, raise.
  intros [Hrun|Hrun]; repeat case_match; by simplify_eq.
Qed.

(** C8: the four comparison operators compare the stored pointers and
    nothing else: equality answers [true] exactly when the two pointers
    are the same address (or both null), inequality is its negation, and
    the answers are the same whatever the heap holds. *)
Theorem comparisons_are_pointer_identity w self other p q r :
  handles w !! self = Some p → handles w !! other = Some q →
  ∀ hp, let w' := set_heap hp w in
    eq_ptr self r w' = Ok (bool_decide (p = r)) w' ∧
    ne_ptr self r w' = Ok (negb (bool_decide (p = r))) w' ∧
    eq_ref self other w' = Ok (bool_decide (p = q)) w' ∧
    ne_ref self other w' = Ok (negb (bool_decide (p = q))) w'.
Proof.
  intros Hs Ho hp w'.
  assert (Hs' : handles w' !! self = Some p) by done.
  assert (Ho' : handles w' !! other = Some q) by done.
  rewrite (eq_ptr_run w' self p r Hs'), (ne_ptr_run w' self p r Hs').
  rewrite (eq_ref_run w' self other p q Hs' Ho').
  rewrite (ne_ref_run w' self other p q Hs' Ho').
  by rewrite !bool_decide_not.
Qed.

(** C10: every observer returns its answer in the world it was called
    in: the stored pointer, the heap and the trace are the same, so no
    retain or release was made.  The dereference operators answer when
    the pointer is that of a live object, which is their precondition. *)
Theorem observers_change_nothing w self other p q r :
  handles w !! self = Some p → handles w !! other = Some q →
  get self w = Ok p w ∧ get_const self w = Ok p w ∧
  to_ptr self w = Ok p w ∧ to_const_ptr self w = Ok p w ∧
  to_PyObject self w = Ok p w ∧ to_const_PyObject self w = Ok p w ∧
  arrow self w = Ok p w ∧ arrow_const self w = Ok p w ∧
  to_bool self w = Ok (bool_decide (p ≠ None)) w ∧
  eq_ptr self r w = Ok (bool_decide (p = r)) w ∧
  ne_ptr self r w = Ok (bool_decide (p ≠ r)) w ∧
  eq_ref self other w = Ok (bool_decide (p = q)) w ∧
  ne_ref self other w = Ok (bool_decide (p ≠ q)) w ∧
  (∀ a, p = Some a → is_Some (heap w !! a) →
        deref self w = Ok a w ∧ deref_const self w = Ok a w) ∧
  (∀ x w1, deref self w = Ok x w1 ∨ deref_const self w = Ok x w1 → w1 = w).
Proof.
  intros Hs Ho.
  repeat (split; [by apply load_ok|]).
  split; [by apply to_bool_run|].
  split; [by apply eq_ptr_run|]. split; [by apply ne_ptr_run|].
  split; [by apply eq_ref_run|]. split; [by apply ne_ref_run|].
  split.
  - intros a -> Hlive. by apply deref_run.
  - intros x w1. apply deref_frame.
Qed.

End observers.

(** Two handles on different objects with equal contents are unequal,
    and a handle equals the raw pointer it stores. *)
Example twins_compare_unequal :
  ob_body <$> heap w_twins !! 5%positive = ob_body <$> heap w_twins !! 6%positive ∧
  eq_ref 0 1 w_twins = Ok false w_twins ∧
  ne_ref 0 1 w_twins = Ok true w_twins ∧
  eq_ptr 0 (Some 5%positive) w_twins = Ok true w_twins.
Proof. repeat split. Qed.

Lemma comparisons_are_pointer_identity_witness :
  eq_ptr 0 (Some 6%positive) w_twins = Ok false w_twins ∧
  ne_ptr 0 (Some 6%positive) w_twins = Ok true w_twins ∧
  eq_ref 0 1 w_twins = Ok false w_twins ∧
  ne_ref 0 1 w_twins = Ok true w_twins.
Proof.
  apply (comparisons_are_pointer_identity w_twins 0 1
           (Some 5%positive) (Some 6%positive) (Some 6%positive)
           eq_refl eq_refl (heap w_twins)).
Defined.

Lemma observers_change_nothing_witness :
  get 0 w_twins = Ok (Some 5%positive) w_twins ∧
  to_bool 0 w_twins = Ok true w_twins ∧
  deref 0 w_twins = Ok 5%positive w_twins.
Proof.
  destruct (observers_change_nothing w_twins 0 1
              (Some 5%positive) (Some 6%positive) None eq_refl eq_refl)
    as (Hget & _ & _ & _ & _ & _ & _ & _ & Hbool & _ & _ & _ & _ & Hderef & _).
  split; [exact Hget|]. split; [exact Hbool|].
  apply (Hderef 5%positive eq_refl). by eexists.
Defined.

(** ** Reading a successful run backwards *)

Section inversion.
Context {T : Type}.
Implicit Types (w : world T) (h self : hid) (p q old : ptr) (a : addr).
Implicit Types (hs : gmap nat (option positive)).

Lemma bind_inv {A B} (m : M T A) (k : A → M T B) w y w1 :
  (m ≫= k) w = Ok y w1 → ∃ x w', m w = Ok x w' ∧ k x w' = Ok y w1.
Proof.
  unfold mbind, M_bind, bind. destruct (m w) as [x w'|f]; [|done]. by exists x, w'.
Qed.

Lemma load_inv w h p w1 : load h w = Ok p w1 → handles w !! h = Some p ∧ w1 = w.
Proof. unfold load. destruct (handles w !! h); [|done]. by intros [= <- <-]. Qed.

Lemma store_inv w h p w1 :
  store h p w = Ok tt w1 →
  is_Some (handles w !! h) ∧ w1 = set_handles (<[h := p]> (handles w)) w.
Proof. unfold store. destruct (handles w !! h); [|done]. by intros [= <-]. Qed.

Lemma init_inv w h p w1 :
  init h p w = Ok tt w1 →
  handles w !! h = None ∧ w1 = set_handles (<[h := p]> (handles w)) w.
Proof. unfold init. destruct (handles w !! h); [done|]. by intros [= <-]. Qed.

Lemma dispose_inv w h w1 :
  dispose h w = Ok tt w1 →
  is_Some (handles w !! h) ∧ w1 = set_handles (delete h (handles w)) w.
Proof. unfold dispose. destruct (handles w !! h); [|done]. by intros [= <-]. Qed.

(** Take the first action off a successful sequence: [x] names its
    answer and [Hx] its run. *)
Ltac unbind H x Hx :=
  let w' := fresh "w'" in
  apply bind_inv in H as (x & w' & Hx & H);
  lazymatch type of x with unit => destruct x | _ => idtac end.

Lemma ctor_copy_inv w self cpfrom w1 :
  ctor_copy self cpfrom w = Ok tt w1 →
  ∃ p, handles w !! cpfrom = Some p ∧ handles w !! self = None ∧
       handles w1 = <[self := p]> (handles w) ∧
       ∀ a, refcount w1 a = refcount w a + hits p a.
Proof.
  unfold ctor_copy. intros H.
  unbind H p Hload. unbind H u Hinit. unbind H q Hq.
  apply load_inv in Hload as [Hfrom ->]. apply init_inv in Hinit as [Hself ->].
  apply load_inv in Hq as [Hq ->]. simpl in Hq.
  rewrite lookup_insert_eq in Hq. injection Hq as <-.
  apply Py_XINCREF_inv in H as (Hhs & _ & Hrc). by exists p.
Qed.

Lemma ctor_move_inv w self mvfrom w1 :
  ctor_move self mvfrom w = Ok tt w1 →
  ∃ p, handles w !! mvfrom = Some p ∧ handles w !! self = None ∧
       w1 = set_handles (<[mvfrom := None]> (<[self := p]> (handles w))) w.
Proof.
  unfold ctor_move. intros H. unbind H p Hload. unbind H u Hinit.
  apply load_inv in Hload as [Hfrom ->]. apply init_inv in Hinit as [Hself ->].
  apply store_inv in H as [_ ->]. by exists p.
Qed.

Lemma assign_copy_inv w self cpfrom r w1 :
  assign_copy self cpfrom w = Ok r w1 →
  ∃ old p, handles w !! self = Some old ∧ handles w !! cpfrom = Some p ∧
           handles w1 = <[self := p]> (handles w) ∧
           trace w1 = trace w ++ releases old ++ retains p ∧
           ∀ a, refcount w1 a = refcount w a - hits old a + hits p a.
Proof.
  unfold assign_copy. intros H.
  unbind H old Hold. unbind H u Hdec. unbind H p Hload.
  unbind H u Hstore. unbind H q Hq. unbind H u Hinc.
  injection H as <- <-.
  apply load_inv in Hold as [Hself ->].
  apply Py_XDECREF_inv in Hdec as (Hhs0 & Htr0 & Hrc0).
  apply load_inv in Hload as [Hfrom ->]. rewrite Hhs0 in Hfrom.
  apply store_inv in Hstore as [_ ->].
  apply load_inv in Hq as [Hq ->]. simpl in Hq.
  rewrite lookup_insert_eq in Hq. injection Hq as <-.
  apply Py_XINCREF_inv in Hinc as (Hhs & Htr & Hrc). simpl in Hhs, Htr.
  exists old, p. rewrite Hhs, Htr, Hhs0, Htr0, <- app_assoc.
  repeat split; [done..|].
  intros a. by rewrite Hrc, refcount_set_handles, Hrc0.
Qed.

Lemma assign_move_inv w self mvfrom r w1 :
  assign_move self mvfrom w = Ok r w1 →
  ∃ old p, handles w !! self = Some old ∧ handles w !! mvfrom = Some p ∧
           handles w1 = <[mvfrom := None]> (<[self := p]> (handles w)) ∧
           ∀ a, refcount w1 a = refcount w a - hits old a.
Proof.
  unfold assign_move. intros H.
  unbind H old Hold. unbind H u Hdec. unbind H p Hload. unbind H u Hstore.
  unbind H u Hnull. injection H as <- <-.
  apply load_inv in Hold as [Hself ->].
  apply Py_XDECREF_inv in Hdec as (Hhs0 & Htr0 & Hrc0).
  apply load_inv in Hload as [Hfrom ->]. rewrite Hhs0 in Hfrom.
  apply store_inv in Hstore as [_ ->]. apply store_inv in Hnull as [_ ->].
  exists old, p. simpl. by rewrite Hhs0.
Qed.

Lemma dtor_inv w self w1 :
  dtor self w = Ok tt w1 →
  ∃ p, handles w !! self = Some p ∧ handles w1 = delete self (handles w) ∧
       ∀ a, refcount w1 a = refcount w a - hits p a.
Proof.
  unfold dtor. intros H. unbind H p Hload. unbind H u Hdec.
  apply load_inv in Hload as [Hself ->].
  apply Py_XDECREF_inv in Hdec as (Hhs0 & Htr0 & Hrc0).
  apply dispose_inv in H as [_ ->]. exists p. simpl. by rewrite Hhs0.
Qed.

Lemma escape_inv w self r w1 :
  escape self w = Ok r w1 →
  handles w !! self = Some r ∧ w1 = set_handles (<[self := None]> (handles w)) w.
Proof.
  unfold escape. intros H. unbind H p Hload. unbind H u Hstore.
  apply load_inv in Hload as [Hself ->]. apply store_inv in Hstore as [_ ->].
  by injection H as <- <-.
Qed.

(** An observer that answers leaves the world as it was. *)
Lemma observer_inv {A} (m : M T A) w w1 :
  (∀ x w', m w = Ok x w' → w' = w) → (m ;; ret tt) w = Ok tt w1 → w1 = w.
Proof.
  intros Hpure H. unbind H x Hx. apply Hpure in Hx as ->. by injection H as <-.
Qed.

Lemma load_pure w h x w' : load h w = Ok x w' → w' = w.
Proof. by intros [_ ->]%load_inv. Qed.

Lemma deref_pure w h x w' : deref h w = Ok x w' → w' = w.
Proof. intros H. apply (deref_frame w h x w'). by left. Qed.

Lemma deref_const_pure w h x w' : deref_const h w = Ok x w' → w' = w.
Proof. intros H. apply (deref_frame w h x w'). by right. Qed.

Lemma compare_pure {A} (f : ptr → A) w h x w' :
  (p ← load h; ret (f p)) w = Ok x w' → w' = w.
Proof. intros H. unbind H p Hp. apply load_inv in Hp as [_ ->]. by injection H. Qed.

Lemma compare2_pure {A} (f : ptr → ptr → A) w h h2 x w' :
  (p ← load h; q ← get_const h2; ret (f p q)) w = Ok x w' → w' = w.
Proof.
  intros H. unbind H p Hp. unbind H q Hq. apply load_inv in Hp as [_ ->].
  apply load_inv in Hq as [_ ->]. by injection H.
Qed.

End inversion.

(** ** The credit invariant under the operations *)

Section invariant.
Context {T : Type}.
Implicit Types (w : world T) (h self : hid) (p q old : ptr) (a : addr).
Implicit Types (hs : gmap nat (option positive)).

Lemma holders_update hs h old p a :
  hs !! h = Some old →
  holders a (<[h := p]> hs) = holders a hs - hits old a + hits p a.
Proof.
  intros Hh. rewrite holders_insert, (holders_delete hs h a), Hh. lia.
Qed.

Lemma holders_remove hs h old a :
  hs !! h = Some old → holders a (delete h hs) = holders a hs - hits old a.
Proof. intros Hh. rewrite (holders_delete hs h a), Hh. lia. Qed.

Lemma hits_null a : hits None a = 0.
Proof. by apply hits_ne. Qed.

(** Every operation that runs to its end keeps the credit invariant,
    provided an adoption is given a credit that no handle holds. *)
Lemma exec_preserves_credits o w w1 :
  credits_ok w → adoptable o w → exec o w = Ok tt w1 → credits_ok w1.
Proof.
  intros Hok Hadopt Hrun.
  assert (Hnull : ∀ self, init self None w = Ok tt w1 → credits_ok w1).
  { intros self [Hfresh ->]%init_inv a. simpl.
    rewrite holders_insert_fresh, hits_null by done.
    rewrite refcount_set_handles. specialize (Hok a). lia. }
  assert (Hsame : w1 = w → credits_ok w1) by (by intros ->).
  destruct o; simpl in Hrun; eauto.
  - (* adoption *)
    apply init_inv in Hrun as [Hfresh ->]. intros a. simpl.
    rewrite holders_insert_fresh, refcount_set_handles by done.
    specialize (Hok a). destruct ref as [b|]; [|rewrite hits_null; lia].
    destruct (decide (b = a)) as [->|Hne].
    + simpl in Hadopt. rewrite hits_eq. lia.
    + rewrite hits_ne by congruence. lia.
  - (* copy construction *)
    apply ctor_copy_inv in Hrun as (p & Hfrom & Hfresh & Hhs & Hrc). intros a.
    rewrite Hhs, Hrc, holders_insert_fresh by done. specialize (Hok a). lia.
  - (* move construction *)
    apply ctor_move_inv in Hrun as (p & Hfrom & Hfresh & ->). intros a. simpl.
    assert (self ≠ mvfrom) by congruence.
    rewrite (holders_update _ mvfrom p None) by (by rewrite lookup_insert_ne).
    rewrite holders_insert_fresh, hits_null, refcount_set_handles by done.
    specialize (Hok a). lia.
  - (* copy assignment *)
    apply bind_inv in Hrun as (r & w' & Hrun & Hret). injection Hret as <-.
    apply assign_copy_inv in Hrun as (old & p & Hself & Hfrom & Hhs & _ & Hrc).
    intros a. rewrite Hhs, Hrc, (holders_update _ self old p) by done.
    specialize (Hok a). lia.
  - (* move assignment *)
    apply bind_inv in Hrun as (r & w' & Hrun & Hret). injection Hret as <-.
    apply assign_move_inv in Hrun as (old & p & Hself & Hfrom & Hhs & Hrc).
    intros a. rewrite Hhs, Hrc. specialize (Hok a).
    destruct (decide (mvfrom = self)) as [->|Hne].
    + rewrite insert_insert_eq, (holders_update _ self old None), hits_null by done.
      lia.
    + rewrite (holders_update _ mvfrom p None) by (by rewrite lookup_insert_ne).
      rewrite (holders_update _ self old p), hits_null by done. lia.
  - (* destruction *)
    apply dtor_inv in Hrun as (p & Hself & Hhs & Hrc). intros a.
    rewrite Hhs, Hrc, (holders_remove _ self p) by done. specialize (Hok a). lia.
  - (* escape *)
    apply bind_inv in Hrun as (r & w' & Hesc & Hret).
    apply escape_inv in Hesc as [Hself ->]. injection Hret as <-. intros a. simpl.
    rewrite (holders_update _ self r None), hits_null, refcount_set_handles by done.
    specialize (Hok a). lia.
  - apply Hsame. revert Hrun. apply observer_inv, load_pure.
  - apply Hsame. revert Hrun. apply observer_inv, load_pure.
  - apply Hsame. revert Hrun. apply observer_inv, load_pure.
  - apply Hsame. revert Hrun. apply observer_inv, load_pure.
  - apply Hsame. revert Hrun. apply observer_inv, load_pure.
  - apply Hsame. revert Hrun. apply observer_inv, load_pure.
  - apply Hsame. revert Hrun. apply observer_inv, deref_pure.
  - apply Hsame. revert Hrun. apply observer_inv, deref_const_pure.
  - apply Hsame. revert Hrun. apply observer_inv, load_pure.
  - apply Hsame. revert Hrun. apply observer_inv, load_pure.
  - apply Hsame. revert Hrun. apply observer_inv, compare_pure.
  - apply Hsame. revert Hrun. apply observer_inv, compare_pure.
  - apply Hsame. revert Hrun. apply observer_inv, compare2_pure.
  - apply Hsame. revert Hrun. apply observer_inv, compare_pure.
  - apply Hsame. revert Hrun. apply observer_inv, compare2_pure.
Qed.

End invariant.

Section progress.
Context {T : Type}.
Implicit Types (w : world T) (h self : hid) (p q old : ptr) (a : addr).

Lemma discard_runs {A} (m : M T A) w x w1 :
  m w = Ok x w1 → (m ;; ret tt) w = Ok tt w1.
Proof. intros Hm. by rewrite (bind_ok _ _ _ _ _ Hm). Qed.


(** Copy assignment of a handle to itself is harmless as long as some
    other credit keeps the object alive: one release and one retain,
    and the count and the handle are as before. *)
Lemma assign_copy_self_shared w self a :
  handles w !! self = Some (Some a) → 2 ≤ refcount w a →
  ∃ w1, assign_copy self self w = Ok self w1 ∧
        handles w1 = handles w ∧
        trace w1 = trace w ++ [Release a; Retain a] ∧
        ∀ b, refcount w1 b = refcount w b.
Proof.
  intros Hself Hshared.
  destruct (assign_copy_run w self self (Some a) (Some a) Hself Hself)
    as (w1 & Hrun & Hhs & Htr & Hrc).
  { simpl. lia. }
  { intros b [= <-]. rewrite hits_eq. lia. }
  exists w1. split; [done|]. split; [by rewrite Hhs, insert_id|].
  split; [done|]. intros b. rewrite Hrc. unfold hits. case_decide; [|lia].
  simplify_eq. lia.
Qed.


(** C2: the credit invariant does not survive every operation.  From a
    world that satisfies it, the copy assignment of a handle to itself
    while it holds the only credit of its object breaks it with its
    first statement (the handle points to an object without a credit)
    and then has no defined outcome. *)
Theorem copy_self_assign_breaks_credits w self a :
  credits_ok w → handles w !! self = Some (Some a) → refcount w a = 1 →
  well_scoped (AssignCopy self self) w ∧
  (∃ w1, Py_XDECREF (Some a) w = Ok tt w1 ∧ ¬ credits_ok w1) ∧
  exec (AssignCopy self self) w = Fault (UseAfterFree a).
Proof.
  intros Hok Hself Hone. split; [by split; eexists|]. split.
  - destruct (Py_XDECREF_spec w (Some a)) as (w1 & Hrun & Hhs & _ & Hrc);
      [simpl; lia|].
    exists w1. split; [done|]. intros Hok1. specialize (Hok1 a).
    rewrite Hrc, hits_eq, Hone, Hhs in Hok1.
    pose proof (holders_one _ _ _ Hself). lia.
  - simpl. apply bind_fault. by apply assign_copy_self_sole.
Qed.

End progress.

(** C1: the handle 0 of [w_sole] holds the only credit of the object at
    address 5.  In [h = h] the release comes first: it frees the object
    while the handle still points to it, and the retain that follows is
    applied to freed memory, which is undefined. *)
Theorem copy_self_assign_frees_object :
  handles w_sole !! 0 = Some (Some 5%positive) ∧
  refcount w_sole 5%positive = 1 ∧
  (∃ w1, Py_XDECREF (Some 5%positive) w_sole = Ok tt w1 ∧
         heap w1 !! 5%positive = None ∧
         handles w1 !! 0 = Some (Some 5%positive)) ∧
  assign_copy 0 0 w_sole = Fault (UseAfterFree 5%positive).
Proof.
  split; [reflexivity|]. split; [reflexivity|]. split.
  - eexists. split; [reflexivity|]. split; reflexivity.
  - reflexivity.
Qed.

(** The life of one object: adopted by handle 0 (count 1), copied into
    handle 1 (count 2), handle 0 destroyed (count 1), handle 1 escaped
    (count 1, handle null), the escaped pointer released by hand (count
    0, object freed). *)
Example adopt_copy_destroy_escape :
  ∃ w1 w2 w3 w4 w5,
    ctor_adopt 0 (Some 5%positive) w_fresh = Ok tt w1 ∧ refcount w1 5%positive = 1 ∧
    ctor_copy 1 0 w1 = Ok tt w2 ∧ refcount w2 5%positive = 2 ∧
    dtor 0 w2 = Ok tt w3 ∧ refcount w3 5%positive = 1 ∧
    escape 1 w3 = Ok (Some 5%positive) w4 ∧ refcount w4 5%positive = 1 ∧
    get 1 w4 = Ok None w4 ∧
    Py_XDECREF (Some 5%positive) w4 = Ok tt w5 ∧ heap w5 = ∅ ∧
    trace w5 = [Retain 5%positive; Release 5%positive; Release 5%positive].
Proof. do 5 eexists. repeat split. Qed.

(** [w_sole] is what adoption makes of [w_fresh]. *)
Example w_sole_reached : exec (CtorAdopt 0 (Some 5%positive)) w_fresh = Ok tt w_sole.
Proof. reflexivity. Qed.

Lemma copy_self_assign_breaks_credits_witness :
  well_scoped (AssignCopy 0 0) w_sole ∧
  (∃ w1, Py_XDECREF (Some 5%positive) w_sole = Ok tt w1 ∧ ¬ credits_ok w1) ∧
  exec (AssignCopy 0 0) w_sole = Fault (UseAfterFree 5%positive).
Proof.
  apply (copy_self_assign_breaks_credits w_sole 0 5%positive).
  - apply credits_okb_true. vm_compute. reflexivity.
  - reflexivity.
  - reflexivity.
Defined.

(** ** Empty handles *)

Section empty_handles.
Context {T : Type}.
Implicit Types (w : world T) (h self : hid) (p q old : ptr) (a : addr).

Lemma set_handles_id w : set_handles (handles w) w = w.
Proof. by destruct w. Qed.

(** X1: a handle built by the default or the [nullptr] constructor is
    null and tests false, building it calls nothing, a copy of it is
    null as well, and building it and destroying it leaves the world
    exactly as it was. *)
Theorem null_handle_lifecycle w self :
  handles w !! self = None →
  (ctor_default self ;; dtor self) w = Ok tt w ∧
  (ctor_nullptr self ;; dtor self) w = Ok tt w ∧
  ∃ w1, ctor_default self w = Ok tt w1 ∧ ctor_nullptr self w = Ok tt w1 ∧
        get self w1 = Ok None w1 ∧ to_bool self w1 = Ok false w1 ∧
        trace w1 = trace w ∧ heap w1 = heap w ∧
        ∀ h2, handles w1 !! h2 = None →
              ∃ w2, ctor_copy h2 self w1 = Ok tt w2 ∧ get h2 w2 = Ok None w2 ∧
                    get self w2 = Ok None w2 ∧
                    trace w2 = trace w ∧ heap w2 = heap w.
Proof.
  intros Hfresh.
  set (w1 := set_handles (<[self := None]> (handles w)) w).
  assert (Hinit : init self None w = Ok tt w1) by (by apply init_ok).
  assert (Hnull : handles w1 !! self = Some None) by apply lookup_insert_eq.
  assert (Hback : dtor self w1 = Ok tt w).
  { rewrite dtor_null by done. unfold w1. simpl.
    rewrite delete_insert_eq, delete_id by done.
    f_equal. by destruct w. }
  split; [by rewrite (bind_ok _ _ _ _ _ Hinit)|].
  split; [by rewrite (bind_ok _ _ _ _ _ Hinit)|].
  exists w1. split; [done|]. split; [done|]. split; [by apply load_ok|].
  split; [by apply to_bool_null|]. split; [done|]. split; [done|].
  intros h2 Hh2.
  destruct (ctor_copy_run w1 h2 self None Hnull Hh2) as (w2 & Hrun & Hhs & Htr & Hrc);
    [done|].
  assert (Hne : h2 ≠ self) by congruence.
  exists w2. split; [done|].
  split; [apply load_ok; rewrite Hhs; apply lookup_insert_eq|].
  split; [apply load_ok; by rewrite Hhs, lookup_insert_ne|].
  split; [by rewrite Htr, app_nil_r|].
  revert Hrun. unfold ctor_copy.
  rewrite (bind_ok _ _ _ _ _ (load_ok _ _ _ Hnull)).
  rewrite (bind_ok _ _ _ _ _ (init_ok _ h2 None Hh2)).
  rewrite (bind_ok _ _ _ None (set_handles (<[h2 := None]> (handles w1)) w1))
    by (apply load_ok; apply lookup_insert_eq).
  by intros [= <-].
Qed.

(** X2: a handle that was moved from or escaped reads as null through
    every observer that returns a pointer, tests false, equals
    [nullptr], escapes to [nullptr] without any change, and must not be
    dereferenced: [operator*] on it is undefined. *)
Theorem emptied_handle_observed w0 self w :
  emptied w0 self w →
  get self w = Ok None w ∧ arrow self w = Ok None w ∧
  to_ptr self w = Ok None w ∧ to_PyObject self w = Ok None w ∧
  to_bool self w = Ok false w ∧ eq_ptr self None w = Ok true w ∧
  ne_ptr self None w = Ok false w ∧
  escape self w = Ok None w ∧
  deref self w = Fault NullDeref ∧ deref_const self w = Fault NullDeref.
Proof.
  intros Hnull%emptied_null.
  repeat (split; [by apply load_ok|]).
  split; [by apply to_bool_null|].
  split; [by rewrite (eq_ptr_run w self None None Hnull)|].
  split; [by rewrite (ne_ptr_run w self None None Hnull)|].
  split.
  { rewrite (escape_run w self None Hnull), insert_id by done.
    by rewrite set_handles_id. }
  unfold deref, deref_const.
  by rewrite !(bind_ok _ _ _ _ _ (load_ok _ _ _ Hnull)).
Qed.

(** X3: handing a pointer out with [escape] and adopting it in a new
    handle is move construction: the two have the same outcome in every
    world, faults included. *)
Theorem escape_adopt_is_move w h h2 :
  (escape h ≫= ctor_adopt h2) w = ctor_move h2 h w.
Proof.
  unfold ctor_move, ctor_adopt.
  destruct (handles w !! h) as [p|] eqn:Hh.
  - rewrite (bind_ok _ _ _ _ _ (escape_run w h p Hh)).
    rewrite (bind_ok _ _ _ _ _ (load_ok w h p Hh)).
    destruct (decide (h2 = h)) as [->|Hne].
    + unfold mbind, M_bind, bind, init. simpl.
      by rewrite lookup_insert_eq, Hh.
    + destruct (handles w !! h2) as [q|] eqn:Hh2.
      * unfold mbind, M_bind, bind, init. simpl.
        by rewrite lookup_insert_ne, Hh2 by done.
      * rewrite (bind_ok _ _ _ _ _ (init_ok w h2 p Hh2)).
        rewrite (store_ok _ h None p) by (simpl; by rewrite lookup_insert_ne).
        rewrite init_ok by (simpl; by rewrite lookup_insert_ne).
        simpl. unfold set_handles. simpl. by rewrite insert_insert_ne.
  - unfold escape, mbind, M_bind, bind, load. by rewrite Hh.
Qed.

End empty_handles.

(** ** Borrowed pointers and adopted credits *)

Section borrowing.
Context {T : Type}.
Implicit Types (w : world T) (h self : hid) (p q old : ptr) (a : addr).

Lemma refcount_in_heap w a n :
  refcount w a = S n → ∃ o, heap w !! a = Some o ∧ ob_refcnt o = S n.
Proof.
  unfold refcount. destruct (heap w !! a) as [o|]; [|done]. intros Ho. by exists o.
Qed.

(** The release of the last credit frees the object. *)
Lemma Py_XDECREF_last w a :
  refcount w a = 1 →
  Py_XDECREF (Some a) w
  = Ok tt (World (delete a (heap w)) (handles w) (trace w ++ [Release a])).
Proof.
  intros (o & Ho & Hn)%refcount_in_heap. simpl. rewrite Ho.
  by rewrite decide_True by lia.
Qed.

Lemma dtor_last w self a :
  handles w !! self = Some (Some a) → refcount w a = 1 →
  dtor self w
  = Ok tt (World (delete a (heap w)) (delete self (handles w))
                 (trace w ++ [Release a])).
Proof.
  intros Hself Hone. unfold dtor.
  rewrite (bind_ok _ _ _ _ _ (load_ok w self _ Hself)).
  rewrite (bind_ok _ _ _ _ _ (Py_XDECREF_last w a Hone)).
  by rewrite (dispose_ok _ self (Some a)).
Qed.

(** X4: [get] and [prepare] lend the pointer, they do not give a credit
    with it: once the handle that held the only credit is destroyed,
    the pointer they returned is dangling and any use of it is
    undefined.  The pointer handed out by [escape] stays live after the
    destruction of the handle. *)
Theorem get_is_borrowed w self a :
  handles w !! self = Some (Some a) → refcount w a = 1 →
  (∃ w1, (get self ≫= λ p, dtor self ;; ret p) w = Ok (Some a) w1 ∧
         (prepare self ≫= λ p, dtor self ;; ret p) w = Ok (Some a) w1 ∧
         heap w1 !! a = None ∧
         indirect (Some a) w1 = Fault (UseAfterFree a) ∧
         Py_XINCREF (Some a) w1 = Fault (UseAfterFree a) ∧
         Py_XDECREF (Some a) w1 = Fault (UseAfterFree a)) ∧
  (∃ w2, (escape self ≫= λ p, dtor self ;; ret p) w = Ok (Some a) w2 ∧
         heap w2 = heap w ∧ trace w2 = trace w ∧
         indirect (Some a) w2 = Ok a w2).
Proof.
  intros Hself Hone. split.
  - eexists. unfold prepare, get, get_const.
    rewrite (bind_ok _ _ _ _ _ (load_ok w self _ Hself)).
    rewrite (bind_ok _ _ _ _ _ (dtor_last w self a Hself Hone)).
    split; [reflexivity|]. split; [reflexivity|]. simpl.
    rewrite lookup_delete_eq. by repeat split.
  - rewrite (bind_ok _ _ _ _ _ (escape_run w self _ Hself)).
    rewrite (bind_ok _ _ _ tt
               (set_handles (delete self (<[self := None]> (handles w))) w)).
    + eexists. split; [reflexivity|]. simpl. repeat split.
      destruct (refcount_in_heap w a 0 Hone) as (o & Ho & _). by rewrite Ho.
    + rewrite dtor_null by apply lookup_insert_eq. reflexivity.
Qed.

(** X5: adoption never retains, so two handles that adopt the same
    pointer compare equal and each release it once: with two credits on
    the object both destructors run; with a single credit the first
    destructor frees the object and the second one releases freed
    memory. *)
Theorem adopt_twice w h1 h2 a :
  h1 ≠ h2 → handles w !! h1 = None → handles w !! h2 = None →
  1 ≤ refcount w a →
  ∃ w1, (ctor_adopt h1 (Some a) ;; ctor_adopt h2 (Some a)) w = Ok tt w1 ∧
        trace w1 = trace w ∧ heap w1 = heap w ∧
        eq_ref h1 h2 w1 = Ok true w1 ∧
        (2 ≤ refcount w a →
           ∃ w2, (dtor h1 ;; dtor h2) w1 = Ok tt w2 ∧
                 trace w2 = trace w ++ [Release a; Release a] ∧
                 refcount w2 a = refcount w a - 2) ∧
        (refcount w a = 1 →
           (dtor h1 ;; dtor h2) w1 = Fault (UseAfterFree a)).
Proof.
  intros Hne Hh1 Hh2 Hcredit.
  set (w1 := set_handles (<[h2 := Some a]> (<[h1 := Some a]> (handles w))) w).
  assert (H1 : handles w1 !! h1 = Some (Some a)).
  { simpl. rewrite lookup_insert_ne by done. apply lookup_insert_eq. }
  assert (H2 : handles w1 !! h2 = Some (Some a)) by apply lookup_insert_eq.
  assert (Hrc1 : ∀ b, refcount w1 b = refcount w b) by done.
  exists w1. split.
  { unfold ctor_adopt. rewrite (bind_ok _ _ _ _ _ (init_ok w h1 _ Hh1)).
    rewrite init_ok by (simpl; by rewrite lookup_insert_ne). reflexivity. }
  split; [done|]. split; [done|].
  split; [by rewrite (eq_ref_run w1 h1 h2 _ _ H1 H2), bool_decide_eq_true_2|].
  split.
  - intros Htwo.
    destruct (dtor_run w1 h1 (Some a) H1) as (w2 & Hd1 & Hhs2 & Htr2 & Hrc2);
      [done|].
    destruct (dtor_run w2 h2 (Some a)) as (w3 & Hd2 & Hhs3 & Htr3 & Hrc3).
    { by rewrite Hhs2, lookup_delete_ne. }
    { simpl. rewrite Hrc2, hits_eq, Hrc1. lia. }
    exists w3. rewrite (bind_ok _ _ _ _ _ Hd1). split; [done|].
    split; [by rewrite Htr3, Htr2, <- app_assoc|].
    rewrite Hrc3, Hrc2, hits_eq, Hrc1. lia.
  - intros Hone.
    rewrite (bind_ok _ _ _ _ _ (dtor_last w1 h1 a H1 Hone)).
    unfold dtor.
    erewrite (bind_ok _ _ _ (Some a))
      by (apply load_ok; simpl; by rewrite lookup_delete_ne).
    apply bind_fault. simpl. by rewrite lookup_delete_eq.
Qed.

End borrowing.

(** ** Compositions of copies and moves *)

Section compositions.
Context {T : Type}.
Implicit Types (w : world T) (h self : hid) (p q old : ptr) (a : addr).

Ltac step H := rewrite (bind_ok _ _ _ _ _ H).

Lemma Py_XINCREF_at w a o :
  heap w !! a = Some o →
  Py_XINCREF (Some a) w
  = Ok tt (World (<[a := Object (S (ob_refcnt o)) (ob_body o)]> (heap w))
                 (handles w) (trace w ++ [Retain a])).
Proof. intros Ho. simpl. by rewrite Ho. Qed.

Lemma Py_XDECREF_at w a o :
  heap w !! a = Some o → 2 ≤ ob_refcnt o →
  Py_XDECREF (Some a) w
  = Ok tt (World (<[a := Object (ob_refcnt o - 1) (ob_body o)]> (heap w))
                 (handles w) (trace w ++ [Release a])).
Proof. intros Ho Hn. simpl. rewrite Ho. by rewrite decide_False by lia. Qed.

Lemma Py_XDECREF_null w : Py_XDECREF None w = Ok tt w.
Proof. reflexivity. Qed.

Lemma Py_XINCREF_null w : Py_XINCREF None w = Ok tt w.
Proof. reflexivity. Qed.

(** Move assignment into an empty handle calls nothing. *)
Lemma assign_move_into_null w self mvfrom p :
  handles w !! self = Some None → handles w !! mvfrom = Some p →
  self ≠ mvfrom →
  assign_move self mvfrom w
  = Ok self (set_handles (<[mvfrom := None]> (<[self := p]> (handles w))) w).
Proof.
  intros Hself Hfrom Hne. unfold assign_move.
  step (load_ok w self None Hself). step (Py_XDECREF_null w).
  step (load_ok w mvfrom p Hfrom). step (store_ok w self p None Hself).
  assert (Hfrom1 : handles (set_handles (<[self := p]> (handles w)) w) !! mvfrom
                   = Some p) by (simpl; by rewrite lookup_insert_ne).
  by step (store_ok _ mvfrom None p Hfrom1).
Qed.

(** X6: exchanging two handles by three moves through a temporary, as
    [std::swap] does, exchanges the two pointers and calls neither
    retain nor release: only the handles of the world change. *)
Theorem swap_exchanges w (tmp a b : hid) p q :
  a ≠ b → handles w !! a = Some p → handles w !! b = Some q →
  handles w !! tmp = None →
  swap tmp a b w = Ok tt (set_handles (<[a := q]> (<[b := p]> (handles w))) w).
Proof.
  intros Hab Ha Hb Htmp.
  assert (Hta : tmp ≠ a) by congruence. assert (Htb : tmp ≠ b) by congruence.
  unfold swap. step (ctor_move_run w tmp a p Ha Htmp).
  set (w1 := set_handles (<[a := None]> (<[tmp := p]> (handles w))) w).
  assert (Ha1 : handles w1 !! a = Some None) by apply lookup_insert_eq.
  assert (Hb1 : handles w1 !! b = Some q)
    by (simpl; by rewrite !lookup_insert_ne).
  step (assign_move_into_null w1 a b q Ha1 Hb1 Hab).
  set (w2 := set_handles (<[b := None]> (<[a := q]> (handles w1))) w1).
  assert (Hb2 : handles w2 !! b = Some None) by apply lookup_insert_eq.
  assert (Ht2 : handles w2 !! tmp = Some p).
  { simpl. rewrite !lookup_insert_ne by done. apply lookup_insert_eq. }
  step (assign_move_into_null w2 b tmp p Hb2 Ht2 (not_eq_sym Htb)).
  rewrite dtor_null by (simpl; apply lookup_insert_eq).
  unfold set_handles. simpl. f_equal. f_equal.
  apply map_eq. intros k.
  destruct (decide (k = tmp)) as [->|?]; [by simplify_map_eq|].
  destruct (decide (k = a)) as [->|?]; [by simplify_map_eq|].
  destruct (decide (k = b)) as [->|?]; by simplify_map_eq.
Qed.

Lemma ctor_copy_at w self cpfrom a o :
  handles w !! cpfrom = Some (Some a) → handles w !! self = None →
  heap w !! a = Some o →
  ctor_copy self cpfrom w
  = Ok tt (World (<[a := Object (S (ob_refcnt o)) (ob_body o)]> (heap w))
                 (<[self := Some a]> (handles w)) (trace w ++ [Retain a])).
Proof.
  intros Hfrom Hself Ho. unfold ctor_copy.
  step (load_ok w cpfrom _ Hfrom). step (init_ok w self (Some a) Hself).
  rewrite (bind_ok _ _ _ (Some a) (set_handles (<[self := Some a]> (handles w)) w))
    by (apply load_ok; apply lookup_insert_eq).
  by rewrite (Py_XINCREF_at _ a o).
Qed.

(** X7: copying a handle and destroying the source ends in the same
    heap and the same handles as moving it and destroying the source;
    the copy costs one retain and one release, the move none. *)
Theorem copy_then_destroy_is_move w h h2 a :
  handles w !! h = Some (Some a) → handles w !! h2 = None →
  1 ≤ refcount w a →
  ∃ w1 w2, (ctor_copy h2 h ;; dtor h) w = Ok tt w1 ∧
           (ctor_move h2 h ;; dtor h) w = Ok tt w2 ∧
           heap w1 = heap w2 ∧ handles w1 = handles w2 ∧
           heap w2 = heap w ∧
           trace w1 = trace w ++ [Retain a; Release a] ∧
           trace w2 = trace w.
Proof.
  intros Hh Hh2 Hcredit. assert (Hne : h ≠ h2) by congruence.
  unfold refcount in Hcredit.
  destruct (heap w !! a) as [[n body]|] eqn:Ho; [simpl in Hcredit|lia].
  eexists. eexists. split; [|split].
  - step (ctor_copy_at w h2 h a _ Hh Hh2 Ho). simpl.
    set (w' := World (<[a := Object (S n) body]> (heap w))
                     (<[h2 := Some a]> (handles w)) (trace w ++ [Retain a])).
    assert (Hh' : handles w' !! h = Some (Some a))
      by (simpl; by rewrite lookup_insert_ne).
    assert (Hdec : Py_XDECREF (Some a) w'
                   = Ok tt (World (<[a := Object (S n - 1) body]> (heap w'))
                                  (handles w') (trace w' ++ [Release a]))).
    { apply (Py_XDECREF_at w' a (Object (S n) body)); [apply lookup_insert_eq|].
      simpl. lia. }
    unfold dtor. step (load_ok w' h _ Hh'). step Hdec.
    rewrite (dispose_ok _ h (Some a)) by done. reflexivity.
  - step (ctor_move_run w h2 h _ Hh Hh2).
    rewrite dtor_null by (simpl; apply lookup_insert_eq). reflexivity.
  - simpl. rewrite insert_insert_eq, Nat.sub_0_r.
    rewrite (insert_id (heap w) a (Object n body)) by done.
    split; [done|]. split; [by rewrite delete_insert_eq|].
    split; [done|]. by rewrite <- app_assoc.
Qed.

(** X8: copy assignment between two different handles whose credits
    are in order releases the pointer the target held and retains the
    pointer of the source, in that order and nothing else; both handles
    then store the source's pointer, which is live, no other handle
    changes, and the credits are still in order.  When the two handles
    already pointed to the same object, every count ends as it began. *)
Theorem copy_assign_between_handles w self cpfrom old p :
  credits_ok w → self ≠ cpfrom →
  handles w !! self = Some old → handles w !! cpfrom = Some p →
  ∃ w1, assign_copy self cpfrom w = Ok self w1 ∧
        trace w1 = trace w ++ releases old ++ retains p ∧
        (∀ a, refcount w1 a = refcount w a - hits old a + hits p a) ∧
        get self w1 = Ok p w1 ∧ get cpfrom w1 = Ok p w1 ∧
        (∀ h, h ≠ self → handles w1 !! h = handles w !! h) ∧
        live w1 p ∧ credits_ok w1 ∧
        (old = p → ∀ a, refcount w1 a = refcount w a).
Proof.
  intros Hok Hne Hself Hfrom.
  pose proof (credits_live w self old Hok Hself) as Hlive_old.
  pose proof (credits_live w cpfrom p Hok Hfrom) as Hlive_p.
  destruct (assign_copy_run w self cpfrom old p Hself Hfrom Hlive_old)
    as (w1 & Hrun & Hhs & Htr & Hrc).
  { intros a ->. simpl in Hlive_p.
    destruct (decide (old = Some a)) as [->|Hold].
    - pose proof (credits_distinct w self cpfrom a Hok Hne Hself Hfrom).
      rewrite hits_eq. lia.
    - rewrite hits_ne by done. lia. }
  assert (Hok1 : credits_ok w1).
  { apply (exec_preserves_credits (AssignCopy self cpfrom) w w1 Hok); [done|].
    simpl. by apply discard_runs with self. }
  exists w1. split; [done|]. split; [done|]. split; [done|].
  split; [apply load_ok; rewrite Hhs; apply lookup_insert_eq|].
  split; [apply load_ok; by rewrite Hhs, lookup_insert_ne|].
  split; [intros h Hh; by rewrite Hhs, lookup_insert_ne|].
  split; [apply credits_live with self; [done|rewrite Hhs; apply lookup_insert_eq]|].
  split; [done|].
  intros -> a. rewrite Hrc. destruct p as [b|]; [|rewrite hits_null; lia].
  destruct (decide (b = a)) as [->|Hb].
  - simpl in Hlive_p. rewrite hits_eq. lia.
  - rewrite hits_ne by congruence. lia.
Qed.

(** X9: copy assignment of a handle to itself, when the handle is null
    or some other credit keeps its object alive, changes nothing but the
    trace: the heap and the handles are exactly as before, after one
    release and one retain of the pointer. *)
Theorem copy_self_assign_net_zero w self p :
  handles w !! self = Some p → (∀ a, p = Some a → 2 ≤ refcount w a) →
  assign_copy self self w
  = Ok self (World (heap w) (handles w) (trace w ++ releases p ++ retains p)).
Proof.
  intros Hself Hshared. unfold assign_copy. step (load_ok w self p Hself).
  destruct p as [a|].
  - specialize (Hshared a eq_refl). unfold refcount in Hshared.
    destruct (heap w !! a) as [[n body]|] eqn:Ho; [simpl in Hshared|lia].
    step (Py_XDECREF_at w a _ Ho Hshared).
    erewrite (bind_ok _ _ _ (Some a)) by (by apply load_ok).
    erewrite (bind_ok _ _ _ tt) by (by apply store_ok with (Some a)).
    erewrite (bind_ok _ _ _ (Some a)) by (apply load_ok; apply lookup_insert_eq).
    erewrite (bind_ok _ _ _ tt); cycle 1.
    { apply Py_XINCREF_at. simpl. apply lookup_insert_eq. }
    unfold ret. simpl. rewrite insert_insert_eq, <- app_assoc. simpl.
    replace (S (n - 1)) with n by lia.
    by rewrite (insert_id (heap w) a (Object n body)), (insert_id (handles w)).
  - step (Py_XDECREF_null w).
    step (load_ok w self None Hself). step (store_ok w self None None Hself).
    erewrite (bind_ok _ _ _ None) by (apply load_ok; apply lookup_insert_eq).
    erewrite (bind_ok _ _ _ tt) by apply Py_XINCREF_null.
    unfold ret. simpl. by rewrite insert_id, app_nil_r.
Qed.

End compositions.

(** ** What the operations leave alone *)

Section frames.
Context {T : Type}.
Implicit Types (w : world T) (h self : hid) (p q old : ptr) (a : addr).

(** A relation between worlds that holds along every run: it is a
    preorder, it ignores the handles, and the retain and the release
    stay within it. *)
Section along_runs.
Variable R : relation (world T).
Context `{!PreOrder R}.
Hypothesis R_handles : ∀ w hs, R w (set_handles hs w).
Hypothesis R_retain : ∀ p, within R (Py_XINCREF (T := T) p).
Hypothesis R_release : ∀ p, within R (Py_XDECREF (T := T) p).

Lemma within_ret {A} (x : A) : within R (ret x).
Proof. intros w y w1 [= <- <-]. reflexivity. Qed.

Lemma within_bind {A B} (m : M T A) (k : A → M T B) :
  within R m → (∀ x, within R (k x)) → within R (m ≫= k).
Proof.
  intros Hm Hk w y w1 (x & w' & Hrun & Hrest)%bind_inv.
  transitivity w'; [by apply Hm in Hrun|by apply Hk in Hrest].
Qed.

Lemma within_load h : within R (load h).
Proof. intros w x w1 [_ ->]%load_inv. reflexivity. Qed.

Lemma within_store h p : within R (store h p).
Proof. intros w [] w1 [_ ->]%store_inv. apply R_handles. Qed.

Lemma within_init h p : within R (init h p).
Proof. intros w [] w1 [_ ->]%init_inv. apply R_handles. Qed.

Lemma within_dispose h : within R (dispose h).
Proof. intros w [] w1 [_ ->]%dispose_inv. apply R_handles. Qed.

Lemma within_indirect p : within R (indirect p).
Proof.
  intros w x w1. destruct p as [a|]; simpl; [|done].
  destruct (heap w !! a); [|done]. intros [= <- <-]. reflexivity.
Qed.

Ltac within_steps :=
  repeat first
    [ apply within_bind; [|intros ?]
    | apply within_ret | apply within_load | apply within_store
    | apply within_init | apply within_dispose | apply within_indirect
    | apply R_retain | apply R_release ].

Lemma exec_within o : within R (exec o).
Proof.
  destruct o; simpl;
    unfold ctor_default, ctor_nullptr, ctor_adopt, ctor_copy, ctor_move,
      assign_copy, assign_move, dtor, escape, get, get_const, to_ptr,
      to_const_ptr, to_PyObject, to_const_PyObject, deref, deref_const,
      arrow, arrow_const, to_bool, eq_ptr, eq_ref, ne_ptr, ne_ref, get_const;
    within_steps.
Qed.

Lemma run_within os : within R (run os).
Proof.
  induction os as [|o os IH]; simpl; [apply within_ret|].
  apply within_bind; [apply exec_within|by intros _].
Qed.

End along_runs.

Global Instance contents_kept_preorder : PreOrder (contents_kept (T := T)).
Proof.
  split.
  - intros w a o Ho. by exists o.
  - intros w1 w2 w3 H12 H23 a o3 Ho3.
    destruct (H23 a o3 Ho3) as (o2 & Ho2 & E23).
    destruct (H12 a o2 Ho2) as (o1 & Ho1 & E12).
    exists o1. split; [done|congruence].
Qed.

Lemma contents_kept_retain p : within contents_kept (Py_XINCREF (T := T) p).
Proof.
  intros w [] w1. destruct p as [b|]; simpl; [|by intros [= <-]].
  destruct (heap w !! b) as [o|] eqn:Hb; [|done]. intros [= <-] a o1. simpl.
  destruct (decide (a = b)) as [->|Hne].
  - rewrite lookup_insert_eq. intros [= <-]. by exists o.
  - rewrite lookup_insert_ne by done. intros Ho1. by exists o1.
Qed.

Lemma contents_kept_release p : within contents_kept (Py_XDECREF (T := T) p).
Proof.
  intros w [] w1. destruct p as [b|]; simpl; [|by intros [= <-]].
  destruct (heap w !! b) as [o|] eqn:Hb; [|done]. intros [= <-] a o1. simpl.
  destruct (decide (a = b)) as [->|Hne]; case_decide.
  - by rewrite lookup_delete_eq.
  - rewrite lookup_insert_eq. intros [= <-]. by exists o.
  - rewrite lookup_delete_ne by done. intros Ho1. by exists o1.
  - rewrite lookup_insert_ne by done. intros Ho1. by exists o1.
Qed.

(** X10: no sequence of operations on handles creates an object or
    changes the contents of one: whatever is in the heap afterwards was
    there before, with the same contents. *)
Theorem run_keeps_contents os w w1 :
  run os w = Ok tt w1 → contents_kept w w1.
Proof.
  apply (run_within contents_kept).
  - intros w' hs a o Ho. by exists o.
  - apply contents_kept_retain.
  - apply contents_kept_release.
Qed.

End frames.

(** ** Accounting for credits *)

Section accounting.
Context {T : Type}.
Implicit Types (w : world T) (h self : hid) (p q old : ptr) (a : addr).
Implicit Types (hs : gmap nat (option positive)).

Lemma hits_le_holders hs h old a : hs !! h = Some old → hits old a ≤ holders a hs.
Proof. intros Hh. rewrite (holders_delete hs h a), Hh. lia. Qed.

Lemma hits_le_refcount w h old a :
  credits_ok w → handles w !! h = Some old → hits old a ≤ refcount w a.
Proof.
  intros Hok Hh. pose proof (hits_le_holders _ _ _ a Hh). specialize (Hok a). lia.
Qed.

(** The books of one operation: the credits on an object that are not
    held by handles change by what the operation adopts and what it
    lets escape, and by nothing else. *)
Lemma exec_accounts o w w1 :
  credits_ok w → exec o w = Ok tt w1 →
  ∀ a, refcount w1 a + holders a (handles w) + adopted o a
       = refcount w a + holders a (handles w1) + escaped o w a.
Proof.
  intros Hok Hrun a.
  assert (Hnull : ∀ self, init self None w = Ok tt w1 →
            refcount w1 a + holders a (handles w) + 0
            = refcount w a + holders a (handles w1) + 0).
  { intros self [Hfresh ->]%init_inv. simpl.
    rewrite holders_insert_fresh, hits_null, refcount_set_handles by done. lia. }
  assert (Hsame : w1 = w →
            refcount w1 a + holders a (handles w) + 0
            = refcount w a + holders a (handles w1) + 0) by (by intros ->).
  destruct o; simpl in Hrun; simpl; eauto.
  - apply init_inv in Hrun as [Hfresh ->]. simpl.
    rewrite holders_insert_fresh, refcount_set_handles by done. lia.
  - apply ctor_copy_inv in Hrun as (p & Hfrom & Hfresh & Hhs & Hrc).
    rewrite Hhs, Hrc, holders_insert_fresh by done. lia.
  - apply ctor_move_inv in Hrun as (p & Hfrom & Hfresh & ->). simpl.
    assert (self ≠ mvfrom) by congruence.
    rewrite (holders_update _ mvfrom p None) by (by rewrite lookup_insert_ne).
    rewrite holders_insert_fresh, hits_null, refcount_set_handles by done. lia.
  - apply bind_inv in Hrun as (r & w' & Hrun & Hret). injection Hret as <-.
    apply assign_copy_inv in Hrun as (old & p & Hself & Hfrom & Hhs & _ & Hrc).
    rewrite Hhs, Hrc, (holders_update _ self old p) by done.
    pose proof (hits_le_holders _ _ _ a Hself).
    pose proof (hits_le_refcount w self old a Hok Hself). lia.
  - apply bind_inv in Hrun as (r & w' & Hrun & Hret). injection Hret as <-.
    apply assign_move_inv in Hrun as (old & p & Hself & Hfrom & Hhs & Hrc).
    rewrite Hhs, Hrc.
    pose proof (hits_le_holders _ _ _ a Hself).
    pose proof (hits_le_refcount w self old a Hok Hself).
    destruct (decide (mvfrom = self)) as [->|Hne].
    + rewrite insert_insert_eq, (holders_update _ self old None), hits_null by done.
      lia.
    + rewrite (holders_update _ mvfrom p None) by (by rewrite lookup_insert_ne).
      rewrite (holders_update _ self old p), hits_null by done. lia.
  - apply dtor_inv in Hrun as (p & Hself & Hhs & Hrc).
    rewrite Hhs, Hrc, (holders_remove _ self p) by done.
    pose proof (hits_le_holders _ _ _ a Hself).
    pose proof (hits_le_refcount w self p a Hok Hself). lia.
  - apply bind_inv in Hrun as (r & w' & Hesc & Hret).
    apply escape_inv in Hesc as [Hself ->]. injection Hret as <-. simpl.
    rewrite Hself, (holders_update _ self r None), hits_null,
      refcount_set_handles by done.
    pose proof (hits_le_holders _ _ _ a Hself). lia.
  - apply Hsame. revert Hrun. apply observer_inv, load_pure.
  - apply Hsame. revert Hrun. apply observer_inv, load_pure.
  - apply Hsame. revert Hrun. apply observer_inv, load_pure.
  - apply Hsame. revert Hrun. apply observer_inv, load_pure.
  - apply Hsame. revert Hrun. apply observer_inv, load_pure.
  - apply Hsame. revert Hrun. apply observer_inv, load_pure.
  - apply Hsame. revert Hrun. apply observer_inv, deref_pure.
  - apply Hsame. revert Hrun. apply observer_inv, deref_const_pure.
  - apply Hsame. revert Hrun. apply observer_inv, load_pure.
  - apply Hsame. revert Hrun. apply observer_inv, load_pure.
  - apply Hsame. revert Hrun. apply observer_inv, compare_pure.
  - apply Hsame. revert Hrun. apply observer_inv, compare_pure.
  - apply Hsame. revert Hrun. apply observer_inv, compare2_pure.
  - apply Hsame. revert Hrun. apply observer_inv, compare_pure.
  - apply Hsame. revert Hrun. apply observer_inv, compare2_pure.
Qed.

Lemma all_held_credits_ok w : all_held w → credits_ok w.
Proof. intros Hall a. rewrite (Hall a). lia. Qed.

Lemma internal_adopted o a : internal o → adopted o a = 0.
Proof. by destruct o. Qed.

Lemma internal_escaped o w a : internal o → escaped o w a = 0.
Proof. by destruct o. Qed.

Lemma exec_keeps_all_held o w w1 :
  internal o → all_held w → exec o w = Ok tt w1 → all_held w1.
Proof.
  intros Hint Hall Hrun a.
  pose proof (exec_accounts o w w1 (all_held_credits_ok w Hall) Hrun a) as Hacc.
  rewrite internal_adopted, internal_escaped, (Hall a) in Hacc by done. lia.
Qed.

Lemma internal_adoptable o w : internal o → adoptable o w.
Proof. by destruct o. Qed.

(** X11: handles conserve credits.  Along any sequence of operations
    that neither adopts nor escapes, the credits stay in order and, on
    every object, the count moves exactly as the number of handles that
    point to it: no copy, move, assignment, destruction or observer
    loses a credit or releases one twice. *)
Theorem credits_conserved os w w1 :
  credits_ok w → Forall internal os → run os w = Ok tt w1 →
  credits_ok w1 ∧
  ∀ a, refcount w1 a + holders a (handles w)
       = refcount w a + holders a (handles w1).
Proof.
  intros Hok Hint. revert w Hok.
  induction Hint as [|o os Ho Hos IH]; intros w Hok Hrun.
  - injection Hrun as <-. by split.
  - simpl in Hrun. apply bind_inv in Hrun as ([] & w' & Hstep & Hrest).
    pose proof (exec_preserves_credits o w w' Hok (internal_adoptable o w Ho) Hstep)
      as Hok'.
    destruct (IH w' Hok' Hrest) as [Hok1 Hacc]. split; [done|]. intros a.
    pose proof (exec_accounts o w w' Hok Hstep a) as Hone.
    rewrite internal_adopted, internal_escaped in Hone by done.
    specialize (Hacc a). lia.
Qed.



Global Instance heap_ok_preorder :
  PreOrder (λ w w1 : world T, heap_ok w → heap_ok w1).
Proof. split; [by intros w|intros w1 w2 w3 H12 H23 H1; by apply H23, H12]. Qed.

Lemma heap_ok_retain p :
  within (λ w w1 : world T, heap_ok w → heap_ok w1) (Py_XINCREF p).
Proof.
  intros w [] w1. destruct p as [b|]; simpl; [|by intros [= <-]].
  destruct (heap w !! b) as [o|] eqn:Hb; [|done]. intros [= <-] Hheap a o1. simpl.
  destruct (decide (a = b)) as [->|Hne].
  - rewrite lookup_insert_eq. intros [= <-]. simpl. lia.
  - rewrite lookup_insert_ne by done. apply Hheap.
Qed.

Lemma heap_ok_release p :
  within (λ w w1 : world T, heap_ok w → heap_ok w1) (Py_XDECREF p).
Proof.
  intros w [] w1. destruct p as [b|]; simpl; [|by intros [= <-]].
  destruct (heap w !! b) as [o|] eqn:Hb; [|done]. intros [= <-] Hheap a o1. simpl.
  destruct (decide (a = b)) as [->|Hne]; case_decide.
  - by rewrite lookup_delete_eq.
  - rewrite lookup_insert_eq. intros [= <-]. simpl. lia.
  - rewrite lookup_delete_ne by done. apply Hheap.
  - rewrite lookup_insert_ne by done. apply Hheap.
Qed.

Lemma run_keeps_heap_ok os w w1 :
  heap_ok w → run os w = Ok tt w1 → heap_ok w1.
Proof.
  intros Hheap Hrun. revert Hheap.
  apply (run_within (λ w w1 : world T, heap_ok w → heap_ok w1)) with os tt;
    [by intros ? ?|apply heap_ok_retain|apply heap_ok_release|done].
Qed.

Lemma run_keeps_all_held os w w1 :
  Forall internal os → all_held w → run os w = Ok tt w1 → all_held w1.
Proof.
  intros Hint. revert w.
  induction Hint as [|o os Ho Hos IH]; intros w Hall Hrun.
  - by injection Hrun as <-.
  - simpl in Hrun. apply bind_inv in Hrun as ([] & w' & Hstep & Hrest).
    apply (IH w'); [|done]. by apply (exec_keeps_all_held o w).
Qed.

(** X14: nothing leaks.  When every credit of every object is held by a
    handle, a sequence of operations that neither adopts nor escapes and
    ends with no handle left has freed every object: the heap is
    empty. *)
Theorem no_handle_no_object os w w1 :
  heap_ok w → all_held w → Forall internal os →
  run os w = Ok tt w1 → handles w1 = ∅ → heap w1 = ∅.
Proof.
  intros Hheap Hall Hint Hrun Hnone.
  pose proof (run_keeps_heap_ok os w w1 Hheap Hrun) as Hheap1.
  pose proof (run_keeps_all_held os w w1 Hint Hall Hrun) as Hall1.
  apply map_empty. intros a.
  destruct (heap w1 !! a) as [o|] eqn:Ho; [|done].
  specialize (Hall1 a). rewrite Hnone, holders_empty in Hall1.
  unfold refcount in Hall1. rewrite Ho in Hall1.
  specialize (Hheap1 a o Ho). lia.
Qed.

End accounting.

(** ** The properties above on concrete worlds *)

Lemma null_handle_lifecycle_witness :
  (ctor_default 0 ;; dtor 0) w_fresh = Ok tt w_fresh ∧
  (ctor_nullptr 0 ;; dtor 0) w_fresh = Ok tt w_fresh.
Proof.
  destruct (null_handle_lifecycle w_fresh 0) as (Hd & Hn & _); [reflexivity|].
  by split.
Defined.

Lemma emptied_handle_observed_witness :
  let w := set_handles (<[0 := None]> (handles w_sole)) w_sole in
  get 0 w = Ok None w ∧ deref 0 w = Fault NullDeref.
Proof.
  intros w.
  destruct (emptied_handle_observed w_sole 0 w) as (Hget & Hrest).
  - right. right. by exists (Some 5%positive).
  - split; [exact Hget|]. apply Hrest.
Defined.

Lemma get_is_borrowed_witness :
  ∃ w1, (get 0 ≫= λ p, dtor 0 ;; ret p) w_sole = Ok (Some 5%positive) w1 ∧
        indirect (Some 5%positive) w1 = Fault (UseAfterFree 5%positive).
Proof.
  destruct (get_is_borrowed w_sole 0 5%positive) as [(w1 & Hrun & H) _];
    [reflexivity..|].
  exists w1. split; [exact Hrun|]. apply H.
Defined.

Lemma adopt_twice_witness :
  ∃ w1, (ctor_adopt 0 (Some 5%positive) ;; ctor_adopt 1 (Some 5%positive)) w_fresh
        = Ok tt w1 ∧
        eq_ref 0 1 w1 = Ok true w1 ∧
        (dtor 0 ;; dtor 1) w1 = Fault (UseAfterFree 5%positive).
Proof.
  destruct (adopt_twice w_fresh 0 1 5%positive)
    as (w1 & Hrun & _ & _ & Heq & _ & Hfault).
  - lia.
  - reflexivity.
  - reflexivity.
  - vm_compute. lia.
  - exists w1. split; [exact Hrun|]. split; [exact Heq|]. by apply Hfault.
Defined.

Lemma swap_exchanges_witness :
  swap 2 0 1 w_twins
  = Ok tt (set_handles (<[0 := Some 6%positive]> (<[1 := Some 5%positive]>
                          (handles w_twins))) w_twins).
Proof.
  apply (swap_exchanges w_twins 2 0 1 (Some 5%positive) (Some 6%positive)).
  - lia.
  - reflexivity.
  - reflexivity.
  - reflexivity.
Defined.

Lemma copy_then_destroy_is_move_witness :
  ∃ w1 w2, (ctor_copy 1 0 ;; dtor 0) w_sole = Ok tt w1 ∧
           (ctor_move 1 0 ;; dtor 0) w_sole = Ok tt w2 ∧
           heap w1 = heap w2 ∧ handles w1 = handles w2.
Proof.
  destruct (copy_then_destroy_is_move w_sole 0 1 5%positive)
    as (w1 & w2 & Hc & Hm & Hheap & Hhs & _).
  - reflexivity.
  - reflexivity.
  - vm_compute. lia.
  - by exists w1, w2.
Defined.

Lemma copy_assign_between_handles_witness :
  ∃ w1, assign_copy 0 1 w_twins = Ok 0 w1 ∧
        trace w1 = [Release 5%positive; Retain 6%positive] ∧
        get 0 w1 = Ok (Some 6%positive) w1 ∧ credits_ok w1.
Proof.
  destruct (copy_assign_between_handles w_twins 0 1
              (Some 5%positive) (Some 6%positive))
    as (w1 & Hrun & Htr & _ & Hget & _ & _ & _ & Hok & _).
  - apply credits_okb_true. vm_compute. reflexivity.
  - lia.
  - reflexivity.
  - reflexivity.
  - by exists w1.
Defined.

Lemma copy_self_assign_net_zero_witness :
  assign_copy 0 0 w_pair
  = Ok 0 (World (heap w_pair) (handles w_pair)
                [Release 5%positive; Retain 5%positive]).
Proof.
  apply (copy_self_assign_net_zero w_pair 0 (Some 5%positive)).
  - reflexivity.
  - intros a [= <-]. vm_compute. lia.
Defined.

Lemma run_keeps_contents_witness :
  ∃ w1, run [AssignCopy 2 0; Dtor 1; AssignMove 0 2] w_pair = Ok tt w1 ∧
        contents_kept w_pair w1.
Proof.
  eexists. split; [reflexivity|].
  apply (run_keeps_contents [AssignCopy 2 0; Dtor 1; AssignMove 0 2] w_pair).
  reflexivity.
Defined.

Lemma credits_conserved_witness :
  ∃ w1, run [AssignCopy 2 0; Dtor 1; AssignMove 0 2] w_pair = Ok tt w1 ∧
        credits_ok w1 ∧
        ∀ a, refcount w1 a + holders a (handles w_pair)
             = refcount w_pair a + holders a (handles w1).
Proof.
  eexists. split; [reflexivity|].
  apply (credits_conserved [AssignCopy 2 0; Dtor 1; AssignMove 0 2] w_pair).
  - apply credits_okb_true. vm_compute. reflexivity.
  - repeat constructor.
  - reflexivity.
Defined.



Lemma no_handle_no_object_witness :
  ∃ w1, run [Dtor 0; Dtor 1; Dtor 2] w_pair = Ok tt w1 ∧ heap w1 = ∅.
Proof.
  eexists. split; [reflexivity|].
  apply (no_handle_no_object [Dtor 0; Dtor 1; Dtor 2] w_pair).
  - intros a o Ho. unfold w_pair in Ho. simpl in Ho.
    apply lookup_singleton_Some in Ho as [<- <-]. simpl. lia.
  - intros a. destruct (decide (a = 5%positive)) as [->|Hne].
    + vm_compute. reflexivity.
    + unfold refcount. simpl. rewrite lookup_singleton_ne by done.
      symmetry. apply holders_none. intros h Hh.
      unfold w_pair in Hh. simpl in Hh.
      repeat (apply lookup_insert_Some in Hh as [[_ Hh]|[_ Hh]]; [congruence|]).
      apply lookup_singleton_Some in Hh as [_ Hh]. congruence.
  - repeat constructor.
  - reflexivity.
  - reflexivity.
Defined.
